(** * WebRTC peer-to-peer signaling: a shallow embedding and its properties

    The development follows the JavaScript sources of the front end:

    - [utils/signalingOptimizer.js]: [optimizeIceCandidates],
      [ConnectionQualityMonitor], [ConnectionStateManager],
      [setupFallbackMechanism];
    - [services/SignalingService.js]: the signaling channel adapter;
    - [services/WebRTCService.js]: the registry of peer connections;
    - [components/OptimizedMeeting.js]: [handleSignalingMessage].

    JavaScript objects that are mutated in place (arrays, the services, the
    platform's [RTCPeerConnection]) are modelled by explicit state passing;
    a call that can [throw] returns a [completion]. *)

From Stdlib Require Import ZArith Floats String Sorting.Sorted.
From stdpp Require Import gmap strings list fin_maps.

Open Scope string_scope.
Open Scope list_scope.
Open Scope Z_scope.

(** ** JavaScript preliminaries *)

(** The outcome of a call: a value, or an exception thrown to the caller. *)
Inductive completion (A : Type) : Type :=
  | Normal (v : A)
  | Throw (e : string).
Arguments Normal {A} v.
Arguments Throw {A} e.

(** [String.prototype.includes]. *)
Definition includes (s needle : string) : bool :=
  match String.index 0 needle s with
  | Some _ => true
  | None => false
  end.

(** [Array.prototype.findIndex]: the index of the first element that
    satisfies [p], [-1] when there is none. *)
Fixpoint findIndex_from {A : Type} (p : A → bool) (i : Z) (l : list A) : Z :=
  match l with
  | [] => -1
  | x :: l' => if p x then i else findIndex_from p (i + 1) l'
  end.

Definition findIndex {A : Type} (p : A → bool) (l : list A) : Z :=
  findIndex_from p 0 l.

(** [Array.prototype.filter] with the three-argument callback
    [(element, index, self)]; it builds a new array. *)
Fixpoint filter_from {A : Type} (p : A → Z → bool) (i : Z) (l : list A)
  : list A :=
  match l with
  | [] => []
  | x :: l' =>
      if p x i then x :: filter_from p (i + 1) l'
      else filter_from p (i + 1) l'
  end.

Definition Array_filter {A : Type} (p : A → Z → list A → bool)
    (self : list A) : list A :=
  filter_from (λ x i, p x i self) 0 self.

(** [Array.prototype.sort] with a comparator.  ECMAScript requires the sort
    to be stable; the order of the result is then fixed by the comparator,
    and a stable insertion sort computes it.  [cmp a b > 0] puts [a] after
    [b]. *)
Fixpoint sort_insert {A : Type} (cmp : A → A → Z) (x : A) (l : list A)
  : list A :=
  match l with
  | [] => [x]
  | y :: l' =>
      if 0 <? cmp x y then y :: sort_insert cmp x l' else x :: y :: l'
  end.

Definition Array_sort {A : Type} (cmp : A → A → Z) (l : list A) : list A :=
  foldr (sort_insert cmp) [] l.

(** ** [signalingOptimizer.js]: ICE candidate optimization *)

(** The fields of an [RTCIceCandidate] the program reads or forwards;
    [sdpMid] may be [null]. *)
Record RTCIceCandidate : Type := mkCandidate {
  candidate : string;
  sdpMid : option string;
  sdpMLineIndex : option Z
}.

#[global] Instance RTCIceCandidate_eq_dec : EqDecision RTCIceCandidate.
Proof. solve_decision. Defined.

(** The test of the duplicate filter:
    [c.candidate === candidate.candidate && c.sdpMid === candidate.sdpMid]. *)
Definition same_candidate (c0 c : RTCIceCandidate) : bool :=
  bool_decide (candidate c = candidate c0) && bool_decide (sdpMid c = sdpMid c0).

Definition uniqueCandidates (candidates : list RTCIceCandidate)
  : list RTCIceCandidate :=
  Array_filter
    (λ c index self, index =? findIndex (same_candidate c) self)
    candidates.

Definition getPriority (candidate : string) : Z :=
  if includes candidate "host" then 3
  else if includes candidate "srflx" then 2
  else if includes candidate "relay" then 1
  else 0.

Definition compareCandidates (a b : RTCIceCandidate) : Z :=
  getPriority (candidate b) - getPriority (candidate a).

(** The value [optimizeIceCandidates] returns for an array with the given
    elements. *)
Definition optimizeIceCandidates (candidates : list RTCIceCandidate)
  : list RTCIceCandidate :=
  Array_sort compareCandidates (uniqueCandidates candidates).

(** Arrays are objects: the same function over a store of arrays.  [filter]
    allocates the array [uniqueCandidates]; [sort] reorders that array in
    place and returns it. *)
Abbreviation loc := nat (only parsing).
Abbreviation array_store := (gmap nat (list RTCIceCandidate)) (only parsing).

Definition alloc_array (l : list RTCIceCandidate) (h : array_store)
  : loc * array_store :=
  let r := fresh (dom h) in (r, <[r := l]> h).

Definition optimizeIceCandidates_store (candidates : loc) (h : array_store)
  : option (loc * array_store) :=
  match h !! candidates with
  | None => None
  | Some self =>
      let '(unique, h1) := alloc_array (uniqueCandidates self) h in
      match h1 !! unique with
      | None => None
      | Some u => Some (unique, <[unique := Array_sort compareCandidates u]> h1)
      end
  end.

(** The deduplication as the specification words it: walk the candidates in
    order and keep one exactly when no earlier candidate had the same
    (descriptor, media identifier) pair. *)
Definition candidate_key (c : RTCIceCandidate) : string * option string :=
  (candidate c, sdpMid c).

Fixpoint keep_first_occurrence (seen : list (string * option string))
    (l : list RTCIceCandidate) : list RTCIceCandidate :=
  match l with
  | [] => []
  | c :: l' =>
      if decide (candidate_key c ∈ seen) then keep_first_occurrence seen l'
      else c :: keep_first_occurrence (candidate_key c :: seen) l'
  end.

(** The order of the sorted array: priorities do not increase. *)
Definition descending {A : Type} (prio : A → Z) (a b : A) : Prop :=
  prio b ≤ prio a.

(** The priority [optimizeIceCandidates] sorts by. *)
Definition priority (c : RTCIceCandidate) : Z := getPriority (candidate c).

(** The priority as the specification words it: derived from the declared
    type of the candidate, the field that follows [typ] in the candidate
    line. *)
Fixpoint declared_type (fields : list string) : option string :=
  match fields with
  | [] => None
  | field :: rest =>
      if bool_decide (field = "typ") then head rest else declared_type rest
  end.

Definition spec_type_priority (c : RTCIceCandidate) : Z :=
  match declared_type (String.words (candidate c)) with
  | Some t =>
      if bool_decide (t = "host") then 3
      else if bool_decide (t = "srflx") then 2
      else if bool_decide (t = "relay") then 1
      else 0
  | None => 0
  end.

(** ** JavaScript numbers

    A number is an IEEE 754 double: the primitive [float], whose operations
    round to nearest, ties to even, as those of JavaScript do.  [undefined]
    in arithmetic position behaves as [nan]. *)
#[local] Set Warnings "-inexact-float".

(** Truthiness: [0], [-0] and [NaN] are falsy. *)
Definition truthy (a : float) : bool :=
  negb (PrimFloat.eqb a 0 || PrimFloat.is_nan a).

(** ** [signalingOptimizer.js]: ConnectionQualityMonitor *)

Inductive quality : Type := good | fair | poor.

#[global] Instance quality_eq_dec : EqDecision quality.
Proof. solve_decision. Defined.

(** One entry of the statistics report; [packetsLost] may be [undefined]. *)
Record RTCStats : Type := mkStats {
  type : string;
  kind : string;
  timestamp : float;
  bytesReceived : float;
  packetsLost : option float;
  packetsReceived : float
}.

Record ConnectionQualityMonitor : Type := mkMonitor {
  statsInterval : option Z;
  lastBitrate : float;
  lastTimestamp : float
}.

(** The monitor the constructor builds. *)
Definition new_ConnectionQualityMonitor : ConnectionQualityMonitor :=
  mkMonitor None 0%float 0%float.

(** The locals of one sampling callback together with the two fields the
    loop over the report assigns. *)
Record sample_acc : Type := mkAcc {
  totalBitrate : float;
  accPacketsLost : float;
  totalPackets : float;
  accLastBitrate : float;
  accLastTimestamp : float
}.

(** The body of [stats.forEach(report => ...)]. *)
Definition visit_report (a : sample_acc) (report : RTCStats) : sample_acc :=
  if bool_decide (type report = "inbound-rtp")
     && bool_decide (kind report = "video") then
    let now := timestamp report in
    let bytes := bytesReceived report in
    let totalBitrate' :=
      if truthy (accLastTimestamp a) then
        let bitrate :=
          (8 * (bytes - accLastBitrate a) / (now - accLastTimestamp a))%float in
        (totalBitrate a + bitrate)%float
      else totalBitrate a in
    match packetsLost report with
    | Some lost =>
        mkAcc totalBitrate'
              (accPacketsLost a + lost)%float
              (totalPackets a + (packetsReceived report + lost))%float
              bytes now
    | None =>
        mkAcc totalBitrate' (accPacketsLost a) (totalPackets a) bytes now
    end
  else a.

(** The classification at the end of the callback: [quality] starts as
    ['good'], is assigned from the bitrate, then from the loss rate. *)
Definition classify (totalBitrate packetLossRate : float) : quality :=
  let quality0 := good in
  let quality1 :=
    if (totalBitrate <? 100000)%float then poor
    else if (totalBitrate <? 500000)%float then fair
    else quality0 in
  let quality2 :=
    if (0.05 <? packetLossRate)%float then poor
    else if (0.01 <? packetLossRate)%float then fair
    else quality1 in
  quality2.

(** The metrics object handed to [onQualityChange]; its [timestamp] is the
    wall clock [Date.now()]. *)
Record metrics : Type := mkMetrics {
  bitrate : float;
  packetLossRate : float;
  metrics_timestamp : Z
}.

(** One firing of the sampling timer on the report [stats], at wall-clock
    time [date_now]: the monitor afterwards and the call of
    [onQualityChange] it makes. *)
Definition sample (m : ConnectionQualityMonitor) (stats : list RTCStats)
    (date_now : Z) : ConnectionQualityMonitor * (quality * metrics) :=
  let a0 := mkAcc 0%float 0%float 0%float (lastBitrate m) (lastTimestamp m) in
  let a := foldl visit_report a0 stats in
  let rate :=
    if (0 <? totalPackets a)%float
    then (accPacketsLost a / totalPackets a)%float
    else 0%float in
  (mkMonitor (statsInterval m) (accLastBitrate a) (accLastTimestamp a),
   (classify (totalBitrate a) rate,
    mkMetrics (totalBitrate a) rate date_now)).

(** The successive timer firings after [startMonitoring]: the calls of
    [onQualityChange], in order. *)
Fixpoint run_samples (m : ConnectionQualityMonitor)
    (firings : list (list RTCStats * Z)) : list (quality * metrics) :=
  match firings with
  | [] => []
  | (stats, date_now) :: rest =>
      let '(m', emitted) := sample m stats date_now in
      emitted :: run_samples m' rest
  end.

(** The entries of a report that the loop of a sample passes over. *)
Definition not_inbound_video (report : RTCStats) : Prop :=
  ¬ (type report = "inbound-rtp" ∧ kind report = "video").

(** ** [signalingOptimizer.js]: ConnectionStateManager *)

Record ConnectionStateManager : Type := mkManager {
  reconnectAttempts : Z;
  maxReconnectAttempts : Z;
  reconnectDelay : Z
}.

Definition new_ConnectionStateManager : ConnectionStateManager :=
  mkManager 0 3 1000.

(** What a listener of the manager does besides updating the manager. *)
Inductive manager_effect : Type :=
  | CallOnStateChange (state : string)
  | ScheduleRestartIce (delay : Z).

Definition handleDisconnection (m : ConnectionStateManager)
  : ConnectionStateManager * list manager_effect :=
  if reconnectAttempts m <? maxReconnectAttempts m then
    let attempts := reconnectAttempts m + 1 in
    let delay := reconnectDelay m * 2 ^ (attempts - 1) in
    (mkManager attempts (maxReconnectAttempts m) (reconnectDelay m),
     [ScheduleRestartIce delay])
  else (m, []).

Definition resetReconnectAttempts (m : ConnectionStateManager)
  : ConnectionStateManager :=
  mkManager 0 (maxReconnectAttempts m) (reconnectDelay m).

(** The events the two listeners of [startMonitoring] are registered for,
    each with the state the connection reports when it fires. *)
Inductive connection_event : Type :=
  | connectionstatechange (state : string)
  | iceconnectionstatechange (state : string).

Definition is_disconnection (state : string) : bool :=
  bool_decide (state = "disconnected") || bool_decide (state = "failed").

Definition on_event (m : ConnectionStateManager) (ev : connection_event)
  : ConnectionStateManager * list manager_effect :=
  match ev with
  | connectionstatechange state =>
      if is_disconnection state then
        let '(m', effs) := handleDisconnection m in
        (m', CallOnStateChange state :: effs)
      else (m, [CallOnStateChange state])
  | iceconnectionstatechange state =>
      if is_disconnection state then handleDisconnection m else (m, [])
  end.

Fixpoint on_events (m : ConnectionStateManager) (evs : list connection_event)
  : ConnectionStateManager * list manager_effect :=
  match evs with
  | [] => (m, [])
  | ev :: rest =>
      let '(m1, e1) := on_event m ev in
      let '(m2, e2) := on_events m1 rest in
      (m2, (e1 ++ e2))
  end.

(** ** The platform's [RTCPeerConnection] *)

Record RTCSessionDescription : Type := mkDescription {
  sdp_type : string;
  sdp : string
}.

#[global] Instance RTCSessionDescription_eq_dec : EqDecision RTCSessionDescription.
Proof. solve_decision. Defined.

(** The options object of [createOffer]: option names to booleans. *)
Abbreviation offer_options := (gmap string bool) (only parsing).

(** The function stored in the [createOffer] property of a connection: the
    native method, or the closure [setupFallbackMechanism] installs, which
    holds the function it replaced. *)
Inductive createOffer_method : Type :=
  | nativeCreateOffer
  | fallbackCreateOffer (originalCreateOffer : createOffer_method).

Record RTCPeerConnection : Type := mkPeerConnection {
  iceServers : list string;
  signalingState : string;
  connectionState : string;
  localDescription : option RTCSessionDescription;
  remoteDescription : option RTCSessionDescription;
  remoteCandidates : list RTCIceCandidate;
  createOffer_property : createOffer_method
}.

(** The negotiation primitives of the browser.  Their code is not part of
    the repository: each is a parameter, a function of the connection and
    the arguments to the settled promise and the connection afterwards. *)
Class Platform : Type := {
  native_createOffer :
    RTCPeerConnection → offer_options
    → completion RTCSessionDescription * RTCPeerConnection;
  native_setLocalDescription :
    RTCPeerConnection → RTCSessionDescription
    → completion unit * RTCPeerConnection;
  native_addIceCandidate :
    RTCPeerConnection → RTCIceCandidate → completion unit * RTCPeerConnection;
  native_close : RTCPeerConnection → RTCPeerConnection
}.

(** [new RTCPeerConnection({iceServers, ...})]: no description set, no
    candidate added, signaling state ["stable"], connection state ["new"]. *)
Definition new_RTCPeerConnection (servers : list string) : RTCPeerConnection :=
  mkPeerConnection servers "stable" "new" None None [] nativeCreateOffer.

(** ** [signalingOptimizer.js]: the fallback mechanism *)

(** [{...options, offerToReceiveAudio: true, offerToReceiveVideo: true,
      voiceActivityDetection: true}]. *)
Definition fallbackOptions (options : offer_options) : offer_options :=
  <["voiceActivityDetection" := true]>
    (<["offerToReceiveVideo" := true]>
       (<["offerToReceiveAudio" := true]> options)).

Definition setupFallbackMechanism (peerConnection : RTCPeerConnection)
  : RTCPeerConnection :=
  mkPeerConnection
    (iceServers peerConnection) (signalingState peerConnection)
    (connectionState peerConnection) (localDescription peerConnection)
    (remoteDescription peerConnection) (remoteCandidates peerConnection)
    (fallbackCreateOffer (createOffer_property peerConnection)).

Section WithPlatform.
Context `{Platform}.

(** Calling a [createOffer] function.  Besides the settled promise and the
    connection afterwards, the result lists the options of every call of
    the native primitive, in order: the attempts. *)
Fixpoint call_createOffer (f : createOffer_method) (pc : RTCPeerConnection)
    (options : offer_options)
  : completion RTCSessionDescription * RTCPeerConnection * list offer_options :=
  match f with
  | nativeCreateOffer =>
      let '(r, pc') := native_createOffer pc options in (r, pc', [options])
  | fallbackCreateOffer originalCreateOffer =>
      match call_createOffer originalCreateOffer pc options with
      | (Normal offer, pc1, attempts) => (Normal offer, pc1, attempts)
      | (Throw _, pc1, attempts) =>
          let '(r, pc2, attempts') :=
            call_createOffer originalCreateOffer pc1 (fallbackOptions options) in
          (r, pc2, (attempts ++ attempts'))
      end
  end.

(** [peerConnection.createOffer(options)]. *)
Definition pc_createOffer (pc : RTCPeerConnection) (options : offer_options)
  : completion RTCSessionDescription * RTCPeerConnection * list offer_options :=
  call_createOffer (createOffer_property pc) pc options.

End WithPlatform.

(** ** [SignalingService.js] *)

Module Signaling.

Record participant : Type := mkParticipant {
  id : string;
  name : string
}.

(** A parsed signaling message; a property that is absent is [None]. *)
Record message : Type := mkMessage {
  type : string;
  from : option string;
  to : option string;
  offer : option RTCSessionDescription;
  answer : option RTCSessionDescription;
  candidate : option RTCIceCandidate;
  roomName : option string;
  username : option string;
  participants : option (list participant);
  participant_ : option participant;
  participantId : option string
}.

Inductive readyState_value : Type := CONNECTING | OPEN | CLOSING | CLOSED.

#[global] Instance readyState_eq_dec : EqDecision readyState_value.
Proof. solve_decision. Defined.

(** The socket: its state and the messages handed to [send], oldest
    first. *)
Record WebSocket : Type := mkWebSocket {
  readyState : readyState_value;
  sent : list message
}.

(** A registered callback is known by a name; [None] is [null]. *)
Definition callback : Type := string.

Record SignalingService : Type := mkService {
  socket : option WebSocket;
  onSignalingMessage : option callback;
  onRoomCreated : option callback;
  onRoomJoined : option callback;
  onRoomError : option callback;
  onParticipantJoined : option callback;
  onParticipantLeft : option callback;
  svc_roomName : option string;
  svc_username : option string;
  pendingCandidates : gmap string (list RTCIceCandidate);
  console : list string
}.

Definition with_socket (s : SignalingService) (ws : option WebSocket)
  : SignalingService :=
  mkService ws (onSignalingMessage s) (onRoomCreated s) (onRoomJoined s)
    (onRoomError s) (onParticipantJoined s) (onParticipantLeft s)
    (svc_roomName s) (svc_username s) (pendingCandidates s) (console s).

Definition with_pending (s : SignalingService)
    (p : gmap string (list RTCIceCandidate)) : SignalingService :=
  mkService (socket s) (onSignalingMessage s) (onRoomCreated s)
    (onRoomJoined s) (onRoomError s) (onParticipantJoined s)
    (onParticipantLeft s) (svc_roomName s) (svc_username s) p (console s).

Definition console_write (s : SignalingService) (line : string)
  : SignalingService :=
  mkService (socket s) (onSignalingMessage s) (onRoomCreated s)
    (onRoomJoined s) (onRoomError s) (onParticipantJoined s)
    (onParticipantLeft s) (svc_roomName s) (svc_username s)
    (pendingCandidates s) (console s ++ [line]).

(** A call of a registered callback, with the argument it receives. *)
Inductive handler_call : Type :=
  | call_onRoomCreated (f : callback) (roomName : option string)
  | call_onRoomJoined (f : callback) (participants : option (list participant))
  | call_onParticipantJoined (f : callback) (p : option participant)
  | call_onParticipantLeft (f : callback) (participantId : option string)
  | call_onSignalingMessage (f : callback) (m : message).

(** [if (handler) handler(argument)]. *)
Definition call_if_set (h : option callback) (mk : callback → handler_call)
  : list handler_call :=
  match h with
  | Some f => [mk f]
  | None => []
  end.

Definition handleSignalingMessage (s : SignalingService) (m : message)
  : SignalingService * list handler_call :=
  let s := console_write s "Received signaling message:" in
  if bool_decide (type m = "room_created") then
    (s, call_if_set (onRoomCreated s) (λ f, call_onRoomCreated f (roomName m)))
  else if bool_decide (type m = "room_joined") then
    (s, call_if_set (onRoomJoined s) (λ f, call_onRoomJoined f (participants m)))
  else if bool_decide (type m = "participant_joined") then
    (s, call_if_set (onParticipantJoined s)
          (λ f, call_onParticipantJoined f (participant_ m)))
  else if bool_decide (type m = "participant_left") then
    (s, call_if_set (onParticipantLeft s)
          (λ f, call_onParticipantLeft f (participantId m)))
  else if bool_decide (type m = "offer") then
    (s, call_if_set (onSignalingMessage s) (λ f, call_onSignalingMessage f m))
  else if bool_decide (type m = "answer") then
    (s, call_if_set (onSignalingMessage s) (λ f, call_onSignalingMessage f m))
  else if bool_decide (type m = "ice_candidate") then
    (s, call_if_set (onSignalingMessage s) (λ f, call_onSignalingMessage f m))
  else (console_write s "Unknown message type:", []).

(** [sendSignalingMessage]: it has no [throw]; the completion is there to
    state that. *)
Definition sendSignalingMessage (s : SignalingService) (m : message)
  : completion unit * SignalingService :=
  match socket s with
  | Some ws =>
      if bool_decide (readyState ws = OPEN) then
        (Normal (), with_socket s (Some (mkWebSocket (readyState ws) (sent ws ++ [m]))))
      else (Normal (), console_write s "WebSocket is not open")
  | None => (Normal (), console_write s "WebSocket is not open")
  end.

Definition storePendingCandidate (s : SignalingService) (peerId : string)
    (c : RTCIceCandidate) : SignalingService :=
  let pending :=
    if bool_decide (is_Some (pendingCandidates s !! peerId))
    then pendingCandidates s
    else <[peerId := []]> (pendingCandidates s) in
  with_pending s (alter (λ queue, queue ++ [c]) peerId pending).

Definition getPendingCandidates (s : SignalingService) (peerId : string)
  : list RTCIceCandidate :=
  default [] (pendingCandidates s !! peerId).

Definition clearPendingCandidates (s : SignalingService) (peerId : string)
  : SignalingService :=
  with_pending s (delete peerId (pendingCandidates s)).

End Signaling.

(** ** [OptimizedMeeting.js]: the handler registered as [onSignalingMessage] *)

Module Meeting.

(** What the handler goes on to do with a message. *)
Inductive action : Type :=
  | handleOffer (m : Signaling.message)
  | handleAnswer (m : Signaling.message)
  | handleRemoteIceCandidate (m : Signaling.message)
  | warn_unknown_type (type : string).

Definition handleSignalingMessage (username : string) (m : Signaling.message)
  : list action :=
  if negb (bool_decide (Signaling.to m = Some username)) then []
  else if bool_decide (Signaling.type m = "offer") then [handleOffer m]
  else if bool_decide (Signaling.type m = "answer") then [handleAnswer m]
  else if bool_decide (Signaling.type m = "ice_candidate")
    then [handleRemoteIceCandidate m]
  else [warn_unknown_type (Signaling.type m)].

End Meeting.

(** ** [WebRTCService.js] *)

Module WebRTC.

(** A reference to a connection object. *)
Abbreviation handle := nat (only parsing).

Definition callback : Type := string.

Record WebRTCService : Type := mkService {
  peerConnections : gmap string handle;
  qualityMonitors : gmap string ConnectionQualityMonitor;
  stateManagers : gmap string ConnectionStateManager;
  onConnectionStateChange : option callback;
  onQualityChange : option callback;
  onIceCandidate : option callback;
  onTrack : option callback
}.

(** The service and every connection object constructed so far.  An object
    stays in [objects] when the service drops its reference. *)
Record state : Type := mkState {
  service : WebRTCService;
  objects : gmap handle RTCPeerConnection
}.

Definition new_WebRTCService : WebRTCService :=
  mkService ∅ ∅ ∅ None None None None.

Definition initial_state : state := mkState new_WebRTCService ∅.

Definition with_peerConnections (s : WebRTCService) (m : gmap string handle)
  : WebRTCService :=
  mkService m (qualityMonitors s) (stateManagers s)
    (onConnectionStateChange s) (onQualityChange s) (onIceCandidate s)
    (onTrack s).

Definition with_qualityMonitors (s : WebRTCService)
    (m : gmap string ConnectionQualityMonitor) : WebRTCService :=
  mkService (peerConnections s) m (stateManagers s)
    (onConnectionStateChange s) (onQualityChange s) (onIceCandidate s)
    (onTrack s).

Definition with_stateManagers (s : WebRTCService)
    (m : gmap string ConnectionStateManager) : WebRTCService :=
  mkService (peerConnections s) (qualityMonitors s) m
    (onConnectionStateChange s) (onQualityChange s) (onIceCandidate s)
    (onTrack s).

(** [this.peerConnections.get(peerId)], with the object it refers to. *)
Definition get_connection (st : state) (peerId : string)
  : option (handle * RTCPeerConnection) :=
  match peerConnections (service st) !! peerId with
  | Some h =>
      match objects st !! h with
      | Some pc => Some (h, pc)
      | None => None
      end
  | None => None
  end.

Definition default_iceServers : list string :=
  [ "stun:stun.l.google.com:19302";
    "stun:stun1.l.google.com:19302";
    "stun:stun2.l.google.com:19302";
    "stun:stun3.l.google.com:19302";
    "stun:stun4.l.google.com:19302" ].

(** [createPeerConnection(peerId, config)]; [config_iceServers] is
    [config.iceServers], [None] when absent.  The handlers that
    [setupPeerConnectionEvents] installs are the functions [onicecandidate]
    and the like below. *)
Definition createPeerConnection (peerId : string)
    (config_iceServers : option (list string)) (st : state) : handle * state :=
  let peerConnection :=
    new_RTCPeerConnection (default default_iceServers config_iceServers) in
  let peerConnection := setupFallbackMechanism peerConnection in
  let h := fresh (dom (objects st)) in
  (h,
   mkState
     (with_peerConnections (service st)
        (<[peerId := h]> (peerConnections (service st))))
     (<[h := peerConnection]> (objects st))).

(** A call of a callback of the service. *)
Inductive callback_call : Type :=
  | call_onIceCandidate (f : callback) (peerId : string)
      (optimizedCandidate : option RTCIceCandidate)
  | call_onConnectionStateChange (f : callback) (peerId : string)
      (state : string).

(** The [onicecandidate] handler of the connection of [peerId];
    [event_candidate] is [event.candidate], [None] for [null].  The value
    passed on is element [0] of the optimized array, [None] should there be
    none. *)
Definition onicecandidate (s : WebRTCService) (peerId : string)
    (event_candidate : option RTCIceCandidate) : list callback_call :=
  match event_candidate with
  | Some c =>
      let optimizedCandidate := optimizeIceCandidates [c] !! 0%nat in
      match onIceCandidate s with
      | Some f => [call_onIceCandidate f peerId optimizedCandidate]
      | None => []
      end
  | None => []
  end.

Definition onconnectionstatechange (s : WebRTCService) (peerId : string)
    (pc : RTCPeerConnection) : list callback_call :=
  match onConnectionStateChange s with
  | Some f => [call_onConnectionStateChange f peerId (connectionState pc)]
  | None => []
  end.

Definition stopQualityMonitoring (peerId : string) (s : WebRTCService)
  : WebRTCService :=
  match qualityMonitors s !! peerId with
  | Some _ => with_qualityMonitors s (delete peerId (qualityMonitors s))
  | None => s
  end.

Definition stopStateMonitoring (peerId : string) (s : WebRTCService)
  : WebRTCService :=
  match stateManagers s !! peerId with
  | Some _ => with_stateManagers s (delete peerId (stateManagers s))
  | None => s
  end.

Definition no_peer_error (peerId : string) : string :=
  "No peer connection found for peer " +:+ peerId.

Section WithPlatform.
Context `{Platform}.

(** [createOffer(peerId, options)]: the settled promise, the state
    afterwards, and the attempts made on the native primitive. *)
Definition createOffer (peerId : string) (options : offer_options) (st : state)
  : completion RTCSessionDescription * state * list offer_options :=
  match get_connection st peerId with
  | Some (h, pc) =>
      match pc_createOffer pc options with
      | (Normal offer, pc1, attempts) =>
          match native_setLocalDescription pc1 offer with
          | (Normal _, pc2) =>
              (Normal offer,
               mkState (service st) (<[h := pc2]> (objects st)), attempts)
          | (Throw error, pc2) =>
              (Throw error,
               mkState (service st) (<[h := pc2]> (objects st)), attempts)
          end
      | (Throw error, pc1, attempts) =>
          (Throw error, mkState (service st) (<[h := pc1]> (objects st)),
           attempts)
      end
  | None => (Throw (no_peer_error peerId), st, [])
  end.

Definition addIceCandidate (peerId : string) (c : RTCIceCandidate) (st : state)
  : completion unit * state :=
  match get_connection st peerId with
  | Some (h, pc) =>
      match native_addIceCandidate pc c with
      | (Normal _, pc1) =>
          (Normal (), mkState (service st) (<[h := pc1]> (objects st)))
      | (Throw error, pc1) =>
          (Throw error, mkState (service st) (<[h := pc1]> (objects st)))
      end
  | None => (Throw (no_peer_error peerId), st)
  end.

Definition closeConnection (peerId : string) (st : state) : state :=
  match get_connection st peerId with
  | Some (h, pc) =>
      let s := stopQualityMonitoring peerId (service st) in
      let s := stopStateMonitoring peerId s in
      mkState
        (with_peerConnections s (delete peerId (peerConnections s)))
        (<[h := native_close pc]> (objects st))
  | None => st
  end.

End WithPlatform.

End WebRTC.

(** ** A browser to run the examples on

    A native [createOffer] that rejects unless audio reception is asked for,
    [addIceCandidate] that rejects before a remote description is set. *)
Definition example_platform : Platform := {|
  native_createOffer pc options :=
    if bool_decide (options !! "offerToReceiveAudio" = Some true)
    then (Normal (mkDescription "offer" "v=0"), pc)
    else (Throw "OperationError", pc);
  native_setLocalDescription pc d :=
    (Normal (),
     mkPeerConnection (iceServers pc) "have-local-offer" (connectionState pc)
       (Some d) (remoteDescription pc) (remoteCandidates pc)
       (createOffer_property pc));
  native_addIceCandidate pc c :=
    match remoteDescription pc with
    | Some _ =>
        (Normal (),
         mkPeerConnection (iceServers pc) (signalingState pc)
           (connectionState pc) (localDescription pc) (remoteDescription pc)
           (remoteCandidates pc ++ [c]) (createOffer_property pc))
    | None => (Throw "InvalidStateError", pc)
    end;
  native_close pc :=
    mkPeerConnection (iceServers pc) "closed" "closed" (localDescription pc)
      (remoteDescription pc) (remoteCandidates pc) (createOffer_property pc)
|}.

(** A browser whose [createOffer] always rejects. *)
Definition rejecting_platform : Platform := {|
  native_createOffer pc options := (Throw "OperationError", pc);
  native_setLocalDescription pc d := (Normal (), pc);
  native_addIceCandidate pc c := (Normal (), pc);
  native_close pc := pc
|}.

(** ** Values for the examples *)

Definition host_candidate : RTCIceCandidate :=
  mkCandidate "candidate:1 1 udp 2122260223 192.168.1.5 54321 typ host"
    (Some "0") (Some 0).

Definition host_candidate_again : RTCIceCandidate :=
  mkCandidate "candidate:1 1 udp 2122260223 192.168.1.5 54321 typ host"
    (Some "0") (Some 1).

Definition srflx_candidate : RTCIceCandidate :=
  mkCandidate
    "candidate:2 1 udp 1686052607 203.0.113.7 54321 typ srflx raddr 192.168.1.5 rport 54321"
    (Some "0") (Some 0).

Definition relay_candidate : RTCIceCandidate :=
  mkCandidate
    "candidate:3 1 udp 41885439 198.51.100.9 3478 typ relay raddr 203.0.113.7 rport 54321"
    (Some "0") (Some 0).

(** A relay candidate as a browser writes it, with the extension fields
    after the addresses; its user name fragment is the four characters
    [host]. *)
Definition relay_candidate_ufrag_host : RTCIceCandidate :=
  mkCandidate
    "candidate:4 1 udp 41885439 198.51.100.9 3478 typ relay raddr 203.0.113.7 rport 54321 generation 0 ufrag host network-id 1"
    (Some "0") (Some 0).

Definition example_candidates : list RTCIceCandidate :=
  [relay_candidate; host_candidate; srflx_candidate; host_candidate_again;
   relay_candidate].

(** Two entries of a statistics report for inbound video, one millisecond
    and 125000 bytes apart, and two entries of other kinds. *)
Definition video_stats_1 : RTCStats :=
  mkStats "inbound-rtp" "video" 1000 125000 (Some 0%float) 100.

Definition video_stats_2 : RTCStats :=
  mkStats "inbound-rtp" "video" 1001 250000 (Some 0%float) 100.

Definition audio_stats : RTCStats :=
  mkStats "inbound-rtp" "audio" 1000 4000 (Some 2%float) 50.

Definition outbound_stats : RTCStats :=
  mkStats "outbound-rtp" "video" 1000 9000 None 0.

(** A signaling service of participant ["alice"] with the meeting's handler
    registered, on a socket in the given state. *)
Definition alice_service (rs : Signaling.readyState_value)
  : Signaling.SignalingService :=
  Signaling.mkService (Some (Signaling.mkWebSocket rs []))
    (Some "handleSignalingMessage") None None None None None
    (Some "room") (Some "alice") ∅ [].

(** An offer from ["bob"] addressed to [addressee]. *)
Definition offer_to (addressee : string) : Signaling.message :=
  Signaling.mkMessage "offer" (Some "bob") (Some addressee)
    (Some (mkDescription "offer" "v=0")) None None None None None None None.

(** ** More of [signalingOptimizer.js] *)

(** The delays of the restarts a run of the listeners schedules, and the
    number of events that report a disconnection. *)
Definition restart_delays (effects : list manager_effect) : list Z :=
  omap (λ e, match e with
             | ScheduleRestartIce delay => Some delay
             | CallOnStateChange _ => None
             end) effects.

Definition event_state (ev : connection_event) : string :=
  match ev with
  | connectionstatechange state => state
  | iceconnectionstatechange state => state
  end.

Definition disconnections (evs : list connection_event) : nat :=
  length (filter (λ ev, is_disconnection (event_state ev) = true) evs).

(** The timers of the page: the identifiers of the running intervals and
    the identifier the next [setInterval] returns. *)
Record timers : Type := mkTimers {
  running : gset Z;
  next_timer : Z
}.

Definition setInterval (t : timers) : Z * timers :=
  (next_timer t, mkTimers ({[next_timer t]} ∪ running t) (next_timer t + 1)).

Definition clearInterval (id : Z) (t : timers) : timers :=
  mkTimers (running t ∖ {[id]}) (next_timer t).

(** [ConnectionQualityMonitor.startMonitoring] and [stopMonitoring], as far
    as the timer goes; what each firing does is [sample]. *)
Definition startMonitoring (m : ConnectionQualityMonitor) (t : timers)
  : ConnectionQualityMonitor * timers :=
  let '(id, t') := setInterval t in
  (mkMonitor (Some id) (lastBitrate m) (lastTimestamp m), t').

Definition stopMonitoring (m : ConnectionQualityMonitor) (t : timers)
  : ConnectionQualityMonitor * timers :=
  match statsInterval m with
  | Some id =>
      if bool_decide (id = 0) then (m, t)
      else (mkMonitor None (lastBitrate m) (lastTimestamp m),
            clearInterval id t)
  | None => (m, t)
  end.

(** *** [optimizeMediaNegotiation] *)

Module Media.

(** An entry of [parameters.encodings]; an absent property is [None]. *)
Record encoding : Type := mkEncoding {
  maxBitrate : option Z;
  active : option bool;
  rid : option string
}.

(** A sender: the kind of its track ([None] when [sender.track] is null)
    and the [encodings] property of what [getParameters()] returns ([None]
    when the property is absent). *)
Record sender : Type := mkSender {
  track_kind : option string;
  encodings : option (list encoding)
}.

(** A video track of the local stream: whether its capabilities have a
    [width] and a [height]. *)
Record video_track : Type := mkVideoTrack {
  has_width : bool;
  has_height : bool
}.

(** The calls the function makes on senders and tracks, each known by its
    index. *)
Inductive call : Type :=
  | setParameters (sender_index : nat) (encodings : list encoding)
  | applyConstraints (track_index : nat).

(** [parameters.encodings[0].maxBitrate = 1000000]. *)
Definition set_maxBitrate (e : encoding) (b : Z) : encoding :=
  mkEncoding (Some b) (active e) (rid e).

(** The body of [senders.forEach]: the encodings handed to
    [setParameters], [None] when the sender is skipped; an empty
    [encodings] array makes the assignment to [encodings[0].maxBitrate]
    throw. *)
Definition sender_encodings (s : sender) : completion (option (list encoding)) :=
  match track_kind s with
  | Some k =>
      if bool_decide (k = "video") then
        let encodings0 :=
          match encodings s with
          | None => [mkEncoding None None None]
          | Some l => l
          end in
        match encodings0 with
        | [] => Throw "TypeError"
        | e0 :: rest =>
            let encodings1 := set_maxBitrate e0 1000000 :: rest in
            if bool_decide (length encodings1 = 1%nat) then
              Normal (Some (encodings1
                            ++ [mkEncoding (Some 500000) None None]
                            ++ [mkEncoding (Some 150000) None None]))
            else Normal (Some encodings1)
        end
      else Normal None
  | None => Normal None
  end.

(** [senders.forEach(...)] from index [i] on: the calls made, and whether
    the loop was left by an exception. *)
Fixpoint visit_senders (i : nat) (senders : list sender)
  : completion unit * list call :=
  match senders with
  | [] => (Normal (), [])
  | s :: rest =>
      match sender_encodings s with
      | Throw e => (Throw e, [])
      | Normal None => visit_senders (S i) rest
      | Normal (Some encs) =>
          let '(r, calls) := visit_senders (S i) rest in
          (r, setParameters i encs :: calls)
      end
  end.

Fixpoint visit_tracks (i : nat) (tracks : list video_track) : list call :=
  match tracks with
  | [] => []
  | t :: rest =>
      if has_width t && has_height t
      then applyConstraints i :: visit_tracks (S i) rest
      else visit_tracks (S i) rest
  end.

(** The senders and tracks the function is to act on, by index and in
    order: the senders with a video track, and the video tracks whose
    capabilities have a width and a height. *)
Definition video_sender_indices (senders : list sender) : list nat :=
  (filter (λ p, track_kind p.2 = Some "video") (imap pair senders)).*1.

Definition capable_track_indices (tracks : list video_track) : list nat :=
  (filter (λ p, has_width p.2 && has_height p.2 = true) (imap pair tracks)).*1.

(** [optimizeMediaNegotiation(peerConnection, localStream)], given the
    senders of the connection and the video tracks of the stream ([None]
    for no stream).  The rejections of [setParameters] and
    [applyConstraints] are caught and logged by the function. *)
Definition optimizeMediaNegotiation (senders : list sender)
    (localStream : option (list video_track)) : completion unit * list call :=
  match visit_senders 0 senders with
  | (Throw e, calls) => (Throw e, calls)
  | (Normal _, calls) =>
      match localStream with
      | Some videoTracks => (Normal (), calls ++ visit_tracks 0 videoTracks)
      | None => (Normal (), calls)
      end
  end.

End Media.

(** ** More of [SignalingService.js] *)

Module SignalingService.
Import Signaling.

(** The argument of [setCallbacks]. *)
Record callbacks : Type := mkCallbacks {
  cb_onSignalingMessage : option callback;
  cb_onRoomCreated : option callback;
  cb_onRoomJoined : option callback;
  cb_onRoomError : option callback;
  cb_onParticipantJoined : option callback;
  cb_onParticipantLeft : option callback
}.

(** [if (callbacks.f) this.f = callbacks.f]. *)
Definition assign_if_set (given current : option callback) : option callback :=
  match given with
  | Some f => Some f
  | None => current
  end.

Definition setCallbacks (s : SignalingService) (c : callbacks)
  : SignalingService :=
  mkService (socket s)
    (assign_if_set (cb_onSignalingMessage c) (onSignalingMessage s))
    (assign_if_set (cb_onRoomCreated c) (onRoomCreated s))
    (assign_if_set (cb_onRoomJoined c) (onRoomJoined s))
    (assign_if_set (cb_onRoomError c) (onRoomError s))
    (assign_if_set (cb_onParticipantJoined c) (onParticipantJoined s))
    (assign_if_set (cb_onParticipantLeft c) (onParticipantLeft s))
    (svc_roomName s) (svc_username s) (pendingCandidates s) (console s).

Definition offer_message (s : SignalingService) (peerId : string)
    (d : RTCSessionDescription) : message :=
  mkMessage "offer" (svc_username s) (Some peerId) (Some d) None None None
    None None None None.

Definition answer_message (s : SignalingService) (peerId : string)
    (d : RTCSessionDescription) : message :=
  mkMessage "answer" (svc_username s) (Some peerId) None (Some d) None None
    None None None None.

Definition candidate_message (s : SignalingService) (peerId : string)
    (c : RTCIceCandidate) : message :=
  mkMessage "ice_candidate" (svc_username s) (Some peerId) None None (Some c)
    None None None None None.

Definition sendOffer (s : SignalingService) (peerId : string)
    (d : RTCSessionDescription) : SignalingService :=
  (sendSignalingMessage s (offer_message s peerId d)).2.

Definition sendAnswer (s : SignalingService) (peerId : string)
    (d : RTCSessionDescription) : SignalingService :=
  (sendSignalingMessage s (answer_message s peerId d)).2.

Definition sendIceCandidate (s : SignalingService) (peerId : string)
    (c : RTCIceCandidate) : SignalingService :=
  (sendSignalingMessage s (candidate_message s peerId c)).2.

(** [close()]: the socket is closed and the reference dropped. *)
Definition close (s : SignalingService) : SignalingService :=
  match socket s with
  | Some _ => with_socket s None
  | None => s
  end.

(** [initializeWebSocket(roomName, username)]: the names are stored and a
    socket is constructed, which starts out connecting. *)
Definition initializeWebSocket (roomName username : string)
    (s : SignalingService) : SignalingService :=
  mkService (Some (mkWebSocket CONNECTING []))
    (onSignalingMessage s) (onRoomCreated s) (onRoomJoined s)
    (onRoomError s) (onParticipantJoined s) (onParticipantLeft s)
    (Some roomName) (Some username) (pendingCandidates s) (console s).

Definition join_message (s : SignalingService) : message :=
  mkMessage "join" None None None None None (svc_roomName s) (svc_username s)
    None None None.

(** The [onopen] handler of the socket. *)
Definition onopen (s : SignalingService) : SignalingService :=
  let s := console_write s "WebSocket connection established" in
  (sendSignalingMessage s (join_message s)).2.

(** The browser's part of the open event: the socket of the service
    becomes open; the handler runs after it. *)
Definition socket_opens (s : SignalingService) : SignalingService :=
  match socket s with
  | Some ws => onopen (with_socket s (Some (mkWebSocket OPEN (sent ws))))
  | None => s
  end.

End SignalingService.

(** ** More of [WebRTCService.js] *)

(** The two further negotiation primitives of the browser, parameters like
    those of [Platform]. *)
Class PlatformAnswer : Type := {
  native_createAnswer :
    RTCPeerConnection → gmap string bool
    → completion RTCSessionDescription * RTCPeerConnection;
  native_setRemoteDescription :
    RTCPeerConnection → RTCSessionDescription
    → completion unit * RTCPeerConnection
}.

Module WebRTCService.
Import WebRTC.

(** The argument of [setCallbacks]. *)
Record callbacks : Type := mkCallbacks {
  cb_onConnectionStateChange : option callback;
  cb_onQualityChange : option callback;
  cb_onIceCandidate : option callback;
  cb_onTrack : option callback
}.

Definition assign_if_set (given current : option callback) : option callback :=
  match given with
  | Some f => Some f
  | None => current
  end.

Definition setCallbacks (s : WebRTCService) (c : callbacks) : WebRTCService :=
  mkService (peerConnections s) (qualityMonitors s) (stateManagers s)
    (assign_if_set (cb_onConnectionStateChange c) (onConnectionStateChange s))
    (assign_if_set (cb_onQualityChange c) (onQualityChange s))
    (assign_if_set (cb_onIceCandidate c) (onIceCandidate s))
    (assign_if_set (cb_onTrack c) (onTrack s)).

(** The handlers [setupPeerConnectionEvents] installs for the three other
    state events report the state to the same callback. *)
Definition onstatechange (s : WebRTCService) (peerId : string)
    (reported : string) : list callback_call :=
  match onConnectionStateChange s with
  | Some f => [call_onConnectionStateChange f peerId reported]
  | None => []
  end.

Section WithPlatform.
Context `{Platform} `{PlatformAnswer}.

Definition createAnswer (peerId : string) (options : gmap string bool)
    (st : state) : completion RTCSessionDescription * state :=
  match get_connection st peerId with
  | Some (h, pc) =>
      match native_createAnswer pc options with
      | (Normal answer, pc1) =>
          match native_setLocalDescription pc1 answer with
          | (Normal _, pc2) =>
              (Normal answer,
               mkState (service st) (<[h := pc2]> (objects st)))
          | (Throw error, pc2) =>
              (Throw error, mkState (service st) (<[h := pc2]> (objects st)))
          end
      | (Throw error, pc1) =>
          (Throw error, mkState (service st) (<[h := pc1]> (objects st)))
      end
  | None => (Throw (no_peer_error peerId), st)
  end.

Definition setRemoteDescription (peerId : string)
    (description : RTCSessionDescription) (st : state)
  : completion unit * state :=
  match get_connection st peerId with
  | Some (h, pc) =>
      match native_setRemoteDescription pc description with
      | (Normal _, pc1) =>
          (Normal (), mkState (service st) (<[h := pc1]> (objects st)))
      | (Throw error, pc1) =>
          (Throw error, mkState (service st) (<[h := pc1]> (objects st)))
      end
  | None => (Throw (no_peer_error peerId), st)
  end.

(** [closeAllConnections()]: [closeConnection] for each key of the map, in
    the order the iteration visits them, which is the order of insertion.
    The order is not part of the state and is given. *)
Definition closeAllConnections (order : list string) (st : state) : state :=
  foldl (λ st peerId, closeConnection peerId st) st order.

(** The calls a user of the service makes that change its state. *)
Inductive operation : Type :=
  | op_createPeerConnection (peerId : string)
      (config_iceServers : option (list string))
  | op_createOffer (peerId : string) (options : gmap string bool)
  | op_createAnswer (peerId : string) (options : gmap string bool)
  | op_setRemoteDescription (peerId : string) (d : RTCSessionDescription)
  | op_addIceCandidate (peerId : string) (c : RTCIceCandidate)
  | op_closeConnection (peerId : string).

Definition operation_peer (o : operation) : string :=
  match o with
  | op_createPeerConnection p _ | op_createOffer p _ | op_createAnswer p _
  | op_setRemoteDescription p _ | op_addIceCandidate p _
  | op_closeConnection p => p
  end.

Definition run_operation (st : state) (o : operation) : state :=
  match o with
  | op_createPeerConnection p cfg => (createPeerConnection p cfg st).2
  | op_createOffer p options => (createOffer p options st).1.2
  | op_createAnswer p options => (createAnswer p options st).2
  | op_setRemoteDescription p d => (setRemoteDescription p d st).2
  | op_addIceCandidate p c => (addIceCandidate p c st).2
  | op_closeConnection p => closeConnection p st
  end.

Definition run_operations (st : state) (ops : list operation) : state :=
  foldl run_operation st ops.

End WithPlatform.

(** Every entry of the registry refers to a connection object, and no two
    entries to the same one. *)
Definition well_formed (st : state) : Prop :=
  (∀ p h, peerConnections (service st) !! p = Some h →
          is_Some (objects st !! h))
  ∧ (∀ p q h, peerConnections (service st) !! p = Some h →
              peerConnections (service st) !! q = Some h → p = q).

End WebRTCService.

(** The example browser's other two primitives: an answer needs a remote
    offer. *)
Definition example_platform_answer : PlatformAnswer := {|
  native_createAnswer pc options :=
    match remoteDescription pc with
    | Some _ => (Normal (mkDescription "answer" "v=0"), pc)
    | None => (Throw "InvalidStateError", pc)
    end;
  native_setRemoteDescription pc d :=
    (Normal (),
     mkPeerConnection (iceServers pc) "have-remote-offer" (connectionState pc)
       (localDescription pc) (Some d) (remoteCandidates pc)
       (createOffer_property pc))
|}.

(** * Properties *)

(** ** Arrays: [findIndex], [filter] and [sort] *)

Section ArrayFacts.
Context {A : Type}.
Implicit Types (p : A → bool) (l : list A).

Lemma findIndex_from_hit p i l x l' :
  Forall (λ y, p y = false) l → p x = true →
  findIndex_from p i (l ++ x :: l') = i + Z.of_nat (length l).
Proof.
  intros Hall Hx. revert i.
  induction Hall as [|y l Hy _ IH]; intros i; simpl.
  - rewrite Hx. lia.
  - rewrite Hy, IH. lia.
Qed.

Lemma findIndex_from_bound p i l :
  findIndex_from p i l = -1 ∨
  i ≤ findIndex_from p i l < i + Z.of_nat (length l).
Proof.
  revert i. induction l as [|x l IH]; intros i; simpl; [by left|].
  destruct (p x); [right; lia|].
  destruct (IH (i + 1)) as [->|?]; [by left|right; lia].
Qed.

Lemma findIndex_from_app_early p i l l' :
  Exists (λ y, p y = true) l →
  findIndex_from p i (l ++ l') = findIndex_from p i l.
Proof.
  intros Hex. revert i.
  induction l as [|y l IH]; intros i; simpl.
  - by apply Exists_nil in Hex.
  - destruct (p y) eqn:Hy; [done|].
    apply IH. apply Exists_cons in Hex as [Hex|Hex]; [congruence|done].
Qed.

End ArrayFacts.

Lemma same_candidate_key c0 c :
  same_candidate c0 c = true ↔ candidate_key c = candidate_key c0.
Proof.
  unfold same_candidate, candidate_key.
  rewrite andb_true_iff, !bool_decide_eq_true. split.
  - by intros [-> ->].
  - by intros [= -> ->].
Qed.

Lemma same_candidate_refl c : same_candidate c c = true.
Proof. by apply same_candidate_key. Qed.

(** At position [length pre] of [pre ++ c :: suf], the filter test of
    [uniqueCandidates] holds exactly when no element of [pre] has the key of
    [c]. *)
Lemma first_index_test pre c suf :
  (Z.of_nat (length pre) =? findIndex (same_candidate c) (pre ++ c :: suf))
  = bool_decide (candidate_key c ∉ candidate_key <$> pre).
Proof.
  unfold findIndex.
  destruct (decide (candidate_key c ∈ candidate_key <$> pre)) as [Hin|Hout].
  - rewrite (bool_decide_eq_false_2 _) by tauto.
    apply Z.eqb_neq.
    rewrite findIndex_from_app_early.
    + destruct (findIndex_from_bound (same_candidate c) 0 pre); lia.
    + apply list_elem_of_fmap in Hin as (y & Hy & Hin).
      apply Exists_exists. exists y. split; [done|].
      by apply same_candidate_key.
  - rewrite (bool_decide_eq_true_2 _) by done.
    apply Z.eqb_eq.
    rewrite findIndex_from_hit; [lia| |apply same_candidate_refl].
    apply Forall_forall. intros y Hy.
    apply not_true_is_false. intros Hs. apply Hout.
    apply same_candidate_key in Hs. rewrite <- Hs.
    apply list_elem_of_fmap. by exists y.
Qed.

Lemma filter_from_keep_first pre suf seen :
  (∀ k, k ∈ seen ↔ k ∈ candidate_key <$> pre) →
  filter_from
    (λ c index, index =? findIndex (same_candidate c) (pre ++ suf))
    (Z.of_nat (length pre)) suf
  = keep_first_occurrence seen suf.
Proof.
  revert pre seen.
  induction suf as [|c suf IH]; intros pre seen Hseen; simpl; [done|].
  rewrite first_index_test.
  replace (Z.of_nat (length pre) + 1) with (Z.of_nat (length (pre ++ [c])))
    by (rewrite length_app; simpl; lia).
  replace (pre ++ c :: suf) with ((pre ++ [c]) ++ suf)
    by (by rewrite <- app_assoc).
  destruct (decide (candidate_key c ∈ seen)) as [Hin|Hout].
  - rewrite bool_decide_eq_false_2 by (rewrite <- Hseen; tauto).
    apply IH. intros k. rewrite fmap_app, elem_of_app, <- Hseen. simpl.
    rewrite list_elem_of_singleton. split; [tauto|]. intros [?| ->]; done.
  - rewrite bool_decide_eq_true_2 by (by rewrite <- Hseen).
    f_equal. apply IH. intros k.
    rewrite fmap_app, elem_of_app, <- Hseen, elem_of_cons. simpl.
    rewrite list_elem_of_singleton. tauto.
Qed.

Lemma uniqueCandidates_keep_first l :
  uniqueCandidates l = keep_first_occurrence [] l.
Proof.
  unfold uniqueCandidates, Array_filter.
  apply (filter_from_keep_first [] l []). intros k. simpl. done.
Qed.

Lemma keep_first_elem seen l c :
  c ∈ keep_first_occurrence seen l ↔
  ∃ pre suf, l = pre ++ c :: suf ∧ (candidate_key c ∉ seen)
             ∧ (candidate_key c ∉ candidate_key <$> pre).
Proof.
  revert seen. induction l as [|x l IH]; intros seen; simpl.
  - split; [by intros ?%elem_of_nil|].
    intros (pre & suf & Heq & _). by destruct pre.
  - destruct (decide (candidate_key x ∈ seen)) as [Hin|Hout].
    + rewrite IH. split.
      * intros (pre & suf & -> & Hs & Hp). exists (x :: pre), suf.
        split_and!; [done..|]. rewrite fmap_cons, not_elem_of_cons.
        split; [|done]. intros Heq. rewrite Heq in Hs. done.
      * intros (pre & suf & Heq & Hs & Hp).
        destruct pre as [|y pre]; simplify_eq/=; [done|].
        exists pre, suf. split_and!; [done..|].
        rewrite not_elem_of_cons in Hp. tauto.
    + rewrite elem_of_cons, IH. split.
      * intros [->|(pre & suf & -> & Hs & Hp)].
        -- exists [], l. split_and!; [done..|]. simpl. apply not_elem_of_nil.
        -- rewrite not_elem_of_cons in Hs. destruct Hs as [Hne Hs].
           exists (x :: pre), suf. split_and!; [done..|].
           rewrite fmap_cons, not_elem_of_cons. done.
      * intros (pre & suf & Heq & Hs & Hp).
        destruct pre as [|y pre]; simplify_eq/=; [by left|].
        right. exists pre, suf. rewrite !not_elem_of_cons in *.
        split_and!; tauto.
Qed.

Lemma keep_first_NoDup seen l :
  NoDup (candidate_key <$> keep_first_occurrence seen l).
Proof.
  revert seen. induction l as [|x l IH]; intros seen; simpl.
  - constructor.
  - destruct (decide (candidate_key x ∈ seen)); [apply IH|].
    rewrite fmap_cons. constructor; [|apply IH].
    intros (c & Hk & Hc)%list_elem_of_fmap.
    apply keep_first_elem in Hc as (_ & _ & _ & Hs & _).
    rewrite <- Hk in Hs. apply Hs. by left.
Qed.

Lemma keep_first_sublist seen l : keep_first_occurrence seen l `sublist_of` l.
Proof.
  revert seen. induction l as [|x l IH]; intros seen; simpl; [done|].
  destruct (decide (candidate_key x ∈ seen)).
  - by apply sublist_cons.
  - by apply sublist_skip.
Qed.

(** The sort, for a comparator that is a difference of priorities. *)
Section StableSort.
Context {A : Type} (prio : A → Z) (cmp : A → A → Z).
Hypothesis cmp_prio : ∀ a b, cmp a b = prio b - prio a.

Lemma sort_insert_perm x l : sort_insert cmp x l ≡ₚ x :: l.
Proof.
  induction l as [|y l IH]; simpl; [done|].
  destruct (0 <? cmp x y); [|done].
  rewrite IH. apply perm_swap.
Qed.

Lemma Array_sort_perm l : Array_sort cmp l ≡ₚ l.
Proof.
  induction l as [|x l IH]; simpl; [done|].
  unfold Array_sort in *. simpl. by rewrite sort_insert_perm, IH.
Qed.

Lemma sort_insert_sorted x l :
  StronglySorted (descending prio) l → StronglySorted (descending prio) (sort_insert cmp x l).
Proof.
  induction 1 as [|y l Hs IH Hall]; simpl.
  - repeat constructor.
  - rewrite cmp_prio. destruct (0 <? prio y - prio x) eqn:Hlt.
    + apply Z.ltb_lt in Hlt. constructor; [done|].
      rewrite sort_insert_perm. constructor; [unfold descending; lia|done].
    + apply Z.ltb_ge in Hlt. constructor; [by constructor|].
      constructor; [unfold descending; lia|].
      eapply Forall_impl; [done|]. unfold descending. simpl. lia.
Qed.

Lemma Array_sort_sorted l : StronglySorted (descending prio) (Array_sort cmp l).
Proof.
  induction l as [|x l IH]; [constructor|].
  by apply sort_insert_sorted.
Qed.

Lemma sort_insert_stable p x l :
  filter (λ a, prio a = p) (sort_insert cmp x l)
  = filter (λ a, prio a = p) (x :: l).
Proof.
  induction l as [|y l IH]; simpl; [done|].
  rewrite cmp_prio. destruct (0 <? prio y - prio x) eqn:Hlt; [|done].
  apply Z.ltb_lt in Hlt.
  rewrite filter_cons, IH, !filter_cons.
  repeat case_decide; done || lia.
Qed.

Lemma Array_sort_stable p l :
  filter (λ a, prio a = p) (Array_sort cmp l) = filter (λ a, prio a = p) l.
Proof.
  induction l as [|x l IH]; [done|].
  unfold Array_sort in *. simpl.
  by rewrite sort_insert_stable, !filter_cons, IH.
Qed.

End StableSort.

(** ** [optimizeIceCandidates] *)

Lemma compareCandidates_priority a b :
  compareCandidates a b = priority b - priority a.
Proof. reflexivity. Qed.

(** Over the store, the function writes one array, a new one. *)
Lemma optimizeIceCandidates_store_value
    (h : gmap nat (list RTCIceCandidate)) (a : nat) input :
  h !! a = Some input →
  ∃ r h',
    optimizeIceCandidates_store a h = Some (r, h')
    ∧ h !! r = None
    ∧ h' = <[r := optimizeIceCandidates input]> h.
Proof.
  intros Ha. unfold optimizeIceCandidates_store, alloc_array. rewrite Ha.
  cbv beta iota zeta. set (r := fresh (dom h)).
  rewrite lookup_insert_eq.
  exists r, (<[r := optimizeIceCandidates input]> h).
  split_and!.
  - by rewrite insert_insert_eq.
  - apply not_elem_of_dom, is_fresh.
  - done.
Qed.

(** X27: [optimizeIceCandidates] leaves its argument array as it was and
    returns a new array [r]; no two entries of the result have the same
    (candidate string, sdpMid) pair; the filter keeps exactly the first
    occurrence of each pair, in the order of the input (an entry is in the
    result exactly when no earlier entry of the input has its pair); the
    result is a permutation of the deduplicated input, in descending order
    of the priority [getPriority] gives the candidate line, and entries of
    equal priority keep the order they have in the deduplicated input.
    That priority is 3 for a line that contains [host], else 2 for one that
    contains [srflx], else 1 for one that contains [relay], else 0: 3, 2
    and 1 for the example host, server-reflexive and relay candidate lines,
    and 3 also for a relay candidate whose user name fragment is [host]. *)
Theorem optimizeIceCandidates_prioritizes
    (h : gmap nat (list RTCIceCandidate)) (a : nat)
    (input : list RTCIceCandidate) :
  h !! a = Some input →
  ∃ (r : nat) (h' : gmap nat (list RTCIceCandidate)),
    optimizeIceCandidates_store a h = Some (r, h')
    ∧ h !! r = None
    ∧ h' !! a = Some input
    ∧ (∀ b, b ≠ r → h' !! b = h !! b)
    ∧ h' !! r = Some (optimizeIceCandidates input)
    ∧ NoDup (candidate_key <$> optimizeIceCandidates input)
    ∧ uniqueCandidates input = keep_first_occurrence [] input
    ∧ keep_first_occurrence [] input `sublist_of` input
    ∧ (∀ c, c ∈ optimizeIceCandidates input ↔
         ∃ pre suf, input = pre ++ c :: suf
                    ∧ (candidate_key c ∉ candidate_key <$> pre))
    ∧ optimizeIceCandidates input ≡ₚ keep_first_occurrence [] input
    ∧ StronglySorted (descending priority) (optimizeIceCandidates input)
    ∧ (∀ p, filter (λ c, priority c = p) (optimizeIceCandidates input)
            = filter (λ c, priority c = p) (keep_first_occurrence [] input))
    ∧ priority host_candidate = 3
    ∧ priority srflx_candidate = 2
    ∧ priority relay_candidate = 1
    ∧ priority (mkCandidate "candidate:4 1 udp 1 192.0.2.1 9 typ prflx" None None)
      = 0
    ∧ priority relay_candidate_ufrag_host = 3
    ∧ (∀ c, priority c
            = if includes (candidate c) "host" then 3
              else if includes (candidate c) "srflx" then 2
              else if includes (candidate c) "relay" then 1
              else 0).
Proof.
  intros Ha.
  destruct (optimizeIceCandidates_store_value h a input Ha)
    as (r & h' & Hrun & Hfresh & ->).
  exists r, (<[r := optimizeIceCandidates input]> h).
  assert (a ≠ r) as Hne by (intros ->; congruence).
  split; [exact Hrun|].
  unfold optimizeIceCandidates. rewrite uniqueCandidates_keep_first.
  split_and!; try reflexivity.
  - done.
  - by rewrite lookup_insert_ne.
  - intros b Hb. by rewrite lookup_insert_ne.
  - by rewrite lookup_insert_eq.
  - rewrite (Array_sort_perm compareCandidates). apply keep_first_NoDup.
  - apply keep_first_sublist.
  - intros c. rewrite (Array_sort_perm compareCandidates), keep_first_elem.
    split.
    + intros (pre & suf & ? & _ & ?). by exists pre, suf.
    + intros (pre & suf & ? & ?). exists pre, suf. split_and!; [done| |done].
      apply not_elem_of_nil.
  - apply Array_sort_perm.
  - apply Array_sort_sorted, compareCandidates_priority.
  - intros p. apply Array_sort_stable, compareCandidates_priority.
Qed.

(** The theorem on an array of five candidates with two duplicates. *)
Lemma optimizeIceCandidates_prioritizes_witness :
  ({[ 5%nat := example_candidates ]} : gmap nat (list RTCIceCandidate)) !! 5%nat
  = Some example_candidates
  ∧ optimizeIceCandidates example_candidates
    = [host_candidate; srflx_candidate; relay_candidate]
  ∧ ∃ r h',
      optimizeIceCandidates_store 5 {[ 5%nat := example_candidates ]}
      = Some (r, h')
      ∧ h' !! 5%nat = Some example_candidates
      ∧ h' !! r = Some (optimizeIceCandidates example_candidates).
Proof.
  assert (({[ 5%nat := example_candidates ]}
             : gmap nat (list RTCIceCandidate)) !! 5%nat
          = Some example_candidates) as Hinput by reflexivity.
  split_and!; [exact Hinput|reflexivity|].
  destruct (optimizeIceCandidates_prioritizes
              {[ 5%nat := example_candidates ]} 5%nat example_candidates
              Hinput)
    as (r & h' & Hrun & _ & Ha & _ & Hr & _).
  exists r, h'. split_and!; assumption.
Defined.

(** C8, where the code leaves the claim: the priority is not derived from
    the declared type of a candidate but from the first of the substrings
    [host], [srflx], [relay] found anywhere in its line.  A relay candidate
    whose user name fragment is [host] has type priority 1 and is ranked 3
    by the code, which puts it before the server-reflexive candidate and
    before the host candidate that follows it in the input: the result is
    not in descending order of type priority.  On the three plain example
    candidates the two priorities agree. *)
Theorem optimizeIceCandidates_ranks_by_substring :
  spec_type_priority relay_candidate_ufrag_host = 1
  ∧ priority relay_candidate_ufrag_host = 3
  ∧ optimizeIceCandidates
      [srflx_candidate; relay_candidate_ufrag_host; host_candidate]
    = [relay_candidate_ufrag_host; host_candidate; srflx_candidate]
  ∧ ¬ StronglySorted (descending spec_type_priority)
        (optimizeIceCandidates
           [srflx_candidate; relay_candidate_ufrag_host; host_candidate])
  ∧ StronglySorted (descending spec_type_priority)
      [host_candidate; srflx_candidate; relay_candidate_ufrag_host]
  ∧ spec_type_priority host_candidate = priority host_candidate
  ∧ spec_type_priority srflx_candidate = priority srflx_candidate
  ∧ spec_type_priority relay_candidate = priority relay_candidate.
Proof.
  assert (optimizeIceCandidates
            [srflx_candidate; relay_candidate_ufrag_host; host_candidate]
          = [relay_candidate_ufrag_host; host_candidate; srflx_candidate])
    as Hrun by (vm_compute; reflexivity).
  split_and!; try (vm_compute; reflexivity).
  - rewrite Hrun. intros Hsorted.
    apply StronglySorted_inv in Hsorted as [_ Hhead].
    apply Forall_cons in Hhead as [Hhead _].
    vm_compute in Hhead. by apply Hhead.
  - repeat constructor; by vm_compute.
Qed.

Lemma optimizeIceCandidates_singleton c : optimizeIceCandidates [c] = [c].
Proof.
  unfold optimizeIceCandidates, uniqueCandidates, Array_filter, findIndex.
  simpl. by rewrite same_candidate_refl.
Qed.

(** C10: the [onicecandidate] handler hands [optimizeIceCandidates] the
    one-element array of the gathered candidate and passes on element 0 of
    the result; on a one-element array the function is the identity; so the
    candidate given to [onIceCandidate] is the gathered one, for the peer
    of the connection, and nothing is emitted for the end-of-candidates
    event or when no callback is set. *)
Theorem onicecandidate_forwards_gathered (s : WebRTC.WebRTCService)
    (peerId : string) (c : RTCIceCandidate) :
  optimizeIceCandidates [c] = [c]
  ∧ WebRTC.onicecandidate s peerId (Some c)
    = match WebRTC.onIceCandidate s with
      | Some f => [WebRTC.call_onIceCandidate f peerId (Some c)]
      | None => []
      end
  ∧ WebRTC.onicecandidate s peerId None = []
  ∧ (∀ ev f p v,
       WebRTC.call_onIceCandidate f p v ∈ WebRTC.onicecandidate s peerId ev →
       p = peerId ∧ ev = v ∧ is_Some v).
Proof.
  split_and!.
  - apply optimizeIceCandidates_singleton.
  - unfold WebRTC.onicecandidate. by rewrite optimizeIceCandidates_singleton.
  - done.
  - intros ev f p v. unfold WebRTC.onicecandidate.
    destruct ev as [c'|]; [|by intros ?%elem_of_nil].
    rewrite optimizeIceCandidates_singleton. simpl.
    destruct (WebRTC.onIceCandidate s); [|by intros ?%elem_of_nil].
    intros Hin%list_elem_of_singleton. by simplify_eq.
Qed.

(** The theorem on a relay candidate gathered for peer bob. *)
Lemma onicecandidate_forwards_gathered_witness :
  WebRTC.onicecandidate
    (WebRTC.mkService ∅ ∅ ∅ None None (Some "handleIceCandidate") None)
    "bob" (Some relay_candidate)
  = [WebRTC.call_onIceCandidate "handleIceCandidate" "bob"
       (Some relay_candidate)].
Proof.
  exact (proj1 (proj2 (onicecandidate_forwards_gathered
    (WebRTC.mkService ∅ ∅ ∅ None None (Some "handleIceCandidate") None)
    "bob" relay_candidate))).
Defined.

(** ** The quality monitor *)

(** *** Doubles *)

(** A double is determined by its decoding. *)
Lemma Prim2SF_eq (x : float) (r : spec_float) :
  Prim2SF x = r → x = SF2Prim r.
Proof. intros <-. by rewrite SF2Prim_Prim2SF. Qed.

(** The thresholds of the loss rate and of the bitrate are in order. *)
Lemma loss_thresholds_ordered (l : float) :
  (0.01 <? l)%float = false → (0.05 <? l)%float = false.
Proof.
  rewrite !FloatAxioms.ltb_spec.
  change (Prim2SF 0.01) with (S754_finite false 5764607523034235 (-59)).
  change (Prim2SF 0.05) with (S754_finite false 7205759403792794 (-57)).
  destruct (Prim2SF l) as [s|s| |s m e]; unfold SFltb, SFcompare; try done.
  destruct s; [done|].
  destruct (Z.compare_spec (-59) e), (Z.compare_spec (-57) e); try done; lia.
Qed.

Lemma bitrate_thresholds_ordered (b : float) :
  (b <? 500000)%float = false → (b <? 100000)%float = false.
Proof.
  rewrite !FloatAxioms.ltb_spec.
  change (Prim2SF 500000) with (S754_finite false 8589934592000000 (-34)).
  change (Prim2SF 100000) with (S754_finite false 6871947673600000 (-36)).
  destruct (Prim2SF b) as [s|s| |s m e]; unfold SFltb, SFcompare; try done.
  destruct s; [done|].
  destruct (Z.compare_spec e (-34)), (Z.compare_spec e (-36)); try done; lia.
Qed.

(** A division by [+0]: the infinity with the sign of the dividend, and
    [NaN] for a zero dividend. *)
Lemma div_zero (n : float) :
  ((0 <? n)%float = true → (n / 0)%float = infinity)
  ∧ ((n <? 0)%float = true → (n / 0)%float = neg_infinity)
  ∧ ((n =? 0)%float = true → (n / 0)%float = nan).
Proof.
  pose proof (div_spec n 0) as Hdiv.
  change (Prim2SF 0) with (S754_zero false) in Hdiv.
  split_and!; intros Hn;
    [rewrite FloatAxioms.ltb_spec in Hn | rewrite FloatAxioms.ltb_spec in Hn
    | rewrite FloatAxioms.eqb_spec in Hn];
    change (Prim2SF 0) with (S754_zero false) in Hn;
    destruct (Prim2SF n) as [s|s| |s m e]; simpl in Hdiv;
    try done; try (by destruct s);
    destruct s; try done; by rewrite (Prim2SF_eq _ _ Hdiv).
Qed.

(** The difference of a finite double and itself is [+0]. *)
Lemma sub_diag_finite (t : float) :
  is_finite t = true → (t - t)%float = 0%float.
Proof.
  unfold is_finite, is_nan, is_infinity.
  rewrite !FloatAxioms.eqb_spec, abs_spec. intros Hfin.
  rewrite <- (SF2Prim_Prim2SF (t - t)), sub_spec.
  change (Prim2SF infinity) with (S754_infinity false) in Hfin.
  destruct (Prim2SF t) as [s|s| |s m e]; try done.
  - by destruct s.
  - by destruct s.
  - unfold SF64sub, SFsub.
    assert (∀ z, IntDef.Z.sub z z = 0) as -> by apply Z.sub_diag.
    done.
Qed.

(** *** Sampling *)

Lemma run_samples_length m firings :
  length (run_samples m firings) = length firings.
Proof.
  revert m. induction firings as [|[stats t] rest IH]; intros m; simpl; [done|].
  by rewrite IH.
Qed.

Lemma run_samples_cons m stats date_now rest :
  run_samples m ((stats, date_now) :: rest)
  = (sample m stats date_now).2
    :: run_samples (sample m stats date_now).1 rest.
Proof. done. Qed.

Lemma visit_report_inbound_video a r :
  type r = "inbound-rtp" → kind r = "video" →
  accLastBitrate (visit_report a r) = bytesReceived r
  ∧ accLastTimestamp (visit_report a r) = timestamp r
  ∧ totalBitrate (visit_report a r)
    = (if truthy (accLastTimestamp a) then
         (totalBitrate a
          + 8 * (bytesReceived r - accLastBitrate a)
            / (timestamp r - accLastTimestamp a))%float
       else totalBitrate a)
  ∧ accPacketsLost (visit_report a r)
    = match packetsLost r with
      | Some lost => (accPacketsLost a + lost)%float
      | None => accPacketsLost a
      end
  ∧ totalPackets (visit_report a r)
    = match packetsLost r with
      | Some lost => (totalPackets a + (packetsReceived r + lost))%float
      | None => totalPackets a
      end.
Proof.
  intros Ht Hk. unfold visit_report.
  rewrite !bool_decide_eq_true_2 by done. simpl.
  by destruct (packetsLost r).
Qed.

Lemma foldl_visit_report_skip a stats :
  Forall not_inbound_video stats → foldl visit_report a stats = a.
Proof.
  intros Hall. revert a.
  induction Hall as [|r stats Hr _ IH]; intros a; simpl; [done|].
  rewrite IH. unfold visit_report.
  destruct (bool_decide (type r = "inbound-rtp")) eqn:Ht; [|done].
  destruct (bool_decide (kind r = "video")) eqn:Hk; [|done].
  apply bool_decide_eq_true in Ht, Hk. by destruct Hr.
Qed.

(** Entries that are not inbound video do not count: a report gives what
    its inbound video entries alone give. *)
Lemma sample_other_entries m pre mid suf date_now :
  Forall not_inbound_video pre → Forall not_inbound_video suf →
  sample m (pre ++ mid ++ suf) date_now = sample m mid date_now.
Proof.
  intros Hpre Hsuf. unfold sample.
  by rewrite !foldl_app, (foldl_visit_report_skip _ pre),
    (foldl_visit_report_skip _ suf).
Qed.

(** The quality a sample emits is the classification of the metrics it
    emits. *)
Lemma sample_quality m stats date_now :
  (sample m stats date_now).2.1
  = classify (bitrate (sample m stats date_now).2.2)
             (packetLossRate (sample m stats date_now).2.2).
Proof. done. Qed.

(** C3, as the code has it: for every sample, whatever the monitor and the
    report, with [b] the bitrate and [l] the loss rate it emits, the quality
    it emits is decided by the loss rate first: poor when [l > 0.05]; fair
    when [0.01 < l] and not [l > 0.05], whatever [b], also when [b] alone
    gives poor; and otherwise by the bitrate: poor when [b < 100000], fair
    when [b < 500000] and not [b < 100000], good otherwise.  The
    comparisons are those of doubles.  Every firing of the timer emits the
    result of its sample.  At the five pairs of numbers of the
    specification the samples come out poor, fair, poor, fair and good, and
    at a bitrate of 50000 with a loss of 3% fair. *)
Theorem sample_classification (m : ConnectionQualityMonitor)
    (stats : list RTCStats) (date_now : Z) :
  ((0.05 <? packetLossRate (sample m stats date_now).2.2)%float = true →
   (sample m stats date_now).2.1 = poor)
  ∧ ((0.01 <? packetLossRate (sample m stats date_now).2.2)%float = true →
     (0.05 <? packetLossRate (sample m stats date_now).2.2)%float = false →
     (sample m stats date_now).2.1 = fair)
  ∧ ((0.01 <? packetLossRate (sample m stats date_now).2.2)%float = false →
     (bitrate (sample m stats date_now).2.2 <? 100000)%float = true →
     (sample m stats date_now).2.1 = poor)
  ∧ ((0.01 <? packetLossRate (sample m stats date_now).2.2)%float = false →
     (bitrate (sample m stats date_now).2.2 <? 100000)%float = false →
     (bitrate (sample m stats date_now).2.2 <? 500000)%float = true →
     (sample m stats date_now).2.1 = fair)
  ∧ ((0.01 <? packetLossRate (sample m stats date_now).2.2)%float = false →
     (bitrate (sample m stats date_now).2.2 <? 500000)%float = false →
     (sample m stats date_now).2.1 = good)
  ∧ (∀ rest,
       run_samples m ((stats, date_now) :: rest)
       = (sample m stats date_now).2
         :: run_samples (sample m stats date_now).1 rest)
  ∧ (sample (mkMonitor None 0 1000)
       [mkStats "inbound-rtp" "video" 2000 6250000 (Some 0%float) 100]
       date_now).2
    = (poor, mkMetrics 50000 0 date_now)
  ∧ (sample (mkMonitor None 0 1000)
       [mkStats "inbound-rtp" "video" 2000 37500000 (Some 0%float) 100]
       date_now).2
    = (fair, mkMetrics 300000 0 date_now)
  ∧ (sample (mkMonitor None 0 1000)
       [mkStats "inbound-rtp" "video" 2000 125000000 (Some 6%float) 94]
       date_now).2
    = (poor, mkMetrics 1000000 0.06 date_now)
  ∧ (sample (mkMonitor None 0 1000)
       [mkStats "inbound-rtp" "video" 2000 125000000 (Some 2%float) 98]
       date_now).2
    = (fair, mkMetrics 1000000 0.02 date_now)
  ∧ (sample (mkMonitor None 0 1000)
       [mkStats "inbound-rtp" "video" 2000 125000000 (Some 0%float) 100]
       date_now).2
    = (good, mkMetrics 1000000 0 date_now)
  ∧ (sample (mkMonitor None 0 1000)
       [mkStats "inbound-rtp" "video" 2000 6250000 (Some 3%float) 97]
       date_now).2
    = (fair, mkMetrics 50000 0.03 date_now).
Proof.
  rewrite sample_quality. unfold classify.
  set (b := bitrate (sample m stats date_now).2.2).
  set (l := packetLossRate (sample m stats date_now).2.2).
  split_and!.
  - by intros ->.
  - by intros -> ->.
  - intros Hl ->. by rewrite (loss_thresholds_ordered l Hl), Hl.
  - intros Hl -> ->. by rewrite (loss_thresholds_ordered l Hl), Hl.
  - intros Hl Hb.
    by rewrite (loss_thresholds_ordered l Hl), Hl,
      (bitrate_thresholds_ordered b Hb), Hb.
  - done.
  - vm_compute. reflexivity.
  - vm_compute. reflexivity.
  - vm_compute. reflexivity.
  - vm_compute. reflexivity.
  - vm_compute. reflexivity.
  - vm_compute. reflexivity.
Qed.

(** C3, a counterexample to the claim.  At an emitted bitrate of 50000,
    which alone gives poor, a loss of 3% gives fair: the loss band (1%, 5%]
    replaces the classification of the bitrate, it does not only lower it.
    And the emitted bitrate is bits per millisecond, the unit of the
    report's timestamps: a stream of 125000 bytes per second, 1 Mbit/s, is
    emitted as 1000 and, without loss, classified poor. *)
Lemma loss_band_replaces_poor_bitrate :
  (sample (mkMonitor None 0 1000)
     [mkStats "inbound-rtp" "video" 2000 6250000 (Some 0%float) 100] 0).2
  = (poor, mkMetrics 50000 0 0)
  ∧ (sample (mkMonitor None 0 1000)
       [mkStats "inbound-rtp" "video" 2000 6250000 (Some 3%float) 97] 0).2
    = (fair, mkMetrics 50000 0.03 0)
  ∧ (sample (mkMonitor None 0 1000)
       [mkStats "inbound-rtp" "video" 2000 125000 (Some 0%float) 100] 0).2
    = (poor, mkMetrics 1000 0 0).
Proof. split_and!; vm_compute; reflexivity. Qed.

(** C6, as the code has it: every firing of the timer calls
    [onQualityChange], the first one too, with the result of its sample,
    whatever the report holds; the quality a sample emits is the
    classification of the metrics it emits.  A sample whose report holds one
    inbound video entry, among any other entries, records that entry's byte
    count and timestamp; with no baseline recorded (a falsy [lastTimestamp],
    as after construction) the emitted bitrate is 0; with a baseline it is
    the double [0 + 8 * (bytes - lastBytes) / (timestamp - lastTimestamp)]. *)
Theorem sample_emits_every_time (m : ConnectionQualityMonitor)
    (pre suf : list RTCStats) (r : RTCStats) (date_now : Z) :
  type r = "inbound-rtp" → kind r = "video" →
  Forall not_inbound_video pre → Forall not_inbound_video suf →
  (∀ firings, length (run_samples m firings) = length firings)
  ∧ (∀ stats d rest,
       run_samples m ((stats, d) :: rest)
       = (sample m stats d).2 :: run_samples (sample m stats d).1 rest)
  ∧ (∀ stats d,
       (sample m stats d).2.1
       = classify (bitrate (sample m stats d).2.2)
                  (packetLossRate (sample m stats d).2.2)
       ∧ metrics_timestamp (sample m stats d).2.2 = d
       ∧ statsInterval (sample m stats d).1 = statsInterval m)
  ∧ lastBitrate (sample m (pre ++ r :: suf) date_now).1 = bytesReceived r
  ∧ lastTimestamp (sample m (pre ++ r :: suf) date_now).1 = timestamp r
  ∧ truthy (lastTimestamp new_ConnectionQualityMonitor) = false
  ∧ (truthy (lastTimestamp m) = false →
     bitrate (sample m (pre ++ r :: suf) date_now).2.2 = 0%float)
  ∧ (truthy (lastTimestamp m) = true →
     bitrate (sample m (pre ++ r :: suf) date_now).2.2
     = (0 + 8 * (bytesReceived r - lastBitrate m)
            / (timestamp r - lastTimestamp m))%float).
Proof.
  intros Ht Hk Hpre Hsuf.
  pose proof (visit_report_inbound_video
    (mkAcc 0 0 0 (lastBitrate m) (lastTimestamp m)) r Ht Hk)
    as (Hb & Hts & Htot & _).
  cbn [accLastTimestamp accLastBitrate totalBitrate] in Htot.
  change (pre ++ r :: suf) with (pre ++ [r] ++ suf).
  rewrite (sample_other_entries m pre [r] suf date_now Hpre Hsuf).
  split_and!.
  - apply run_samples_length.
  - intros stats d rest. apply run_samples_cons.
  - done.
  - exact Hb.
  - exact Hts.
  - done.
  - intros Hf. unfold sample. cbn [foldl snd bitrate]. by rewrite Htot, Hf.
  - intros Hf. unfold sample. cbn [foldl snd bitrate]. by rewrite Htot, Hf.
Qed.

(** The theorem on the second sample of a monitor, the entry between two
    entries of other kinds. *)
Lemma sample_emits_every_time_witness :
  type video_stats_2 = "inbound-rtp" ∧ kind video_stats_2 = "video"
  ∧ bitrate
      (sample (sample new_ConnectionQualityMonitor [video_stats_1] 10).1
         ([audio_stats] ++ video_stats_2 :: [outbound_stats]) 20).2.2
    = 1000000%float.
Proof.
  split_and!; [reflexivity|reflexivity|].
  assert (Forall not_inbound_video [audio_stats]) as Hpre.
  { repeat constructor. intros [_ ?]. discriminate. }
  assert (Forall not_inbound_video [outbound_stats]) as Hsuf.
  { repeat constructor. intros [? _]. discriminate. }
  pose proof (sample_emits_every_time
    (sample new_ConnectionQualityMonitor [video_stats_1] 10).1
    [audio_stats] [outbound_stats] video_stats_2 20 eq_refl eq_refl Hpre Hsuf)
    as (_ & _ & _ & _ & _ & _ & _ & Hrate).
  rewrite Hrate; reflexivity.
Defined.

(** C6, a counterexample to the claim: the first sample after construction
    calls [onQualityChange] with a bitrate, 0, and the quality poor that
    follows from it; and when the first report holds two inbound video
    entries, the second is measured against the first, and the first call
    already carries a computed bitrate. *)
Lemma first_sample_emits_a_bitrate :
  run_samples new_ConnectionQualityMonitor [([video_stats_1], 1700000000000)]
  = [(poor, mkMetrics 0 0 1700000000000)]
  ∧ run_samples new_ConnectionQualityMonitor
      [([video_stats_1; video_stats_2], 1700000000000)]
    = [(good, mkMetrics 1000000 0 1700000000000)].
Proof. split; vm_compute; reflexivity. Qed.

(** ** The connection state manager *)

(** C5, as the code has it: [resetReconnectAttempts] sets the counter to
    zero and changes nothing else; a listener that sees a state other than
    disconnected or failed (connected, for one) leaves the manager as it is,
    the [connectionstatechange] listener only reporting the state; after a
    reset of a manager with the constructor's limits, the next three
    disconnections schedule restarts after 1000, 2000 and 4000 ms. *)
Theorem resetReconnectAttempts_fresh_budget (m : ConnectionStateManager) :
  reconnectAttempts (resetReconnectAttempts m) = 0
  ∧ maxReconnectAttempts (resetReconnectAttempts m) = maxReconnectAttempts m
  ∧ reconnectDelay (resetReconnectAttempts m) = reconnectDelay m
  ∧ (∀ state, is_disconnection state = false →
       on_event m (connectionstatechange state) = (m, [CallOnStateChange state])
       ∧ on_event m (iceconnectionstatechange state) = (m, []))
  ∧ (maxReconnectAttempts m = 3 → reconnectDelay m = 1000 →
     ∀ s1 s2 s3, is_disconnection s1 = true → is_disconnection s2 = true →
       is_disconnection s3 = true →
       on_events (resetReconnectAttempts m)
         [iceconnectionstatechange s1; iceconnectionstatechange s2;
          iceconnectionstatechange s3]
       = (mkManager 3 3 1000,
          [ScheduleRestartIce 1000; ScheduleRestartIce 2000;
           ScheduleRestartIce 4000])).
Proof.
  split_and!; try done.
  - intros state Hs. simpl. by rewrite Hs.
  - intros Hmax Hdelay s1 s2 s3 H1 H2 H3.
    destruct m as [n mx d]. simpl in *. subst.
    unfold on_events, on_event, resetReconnectAttempts.
    rewrite H1, H2, H3. reflexivity.
Qed.

(** The theorem on a manager that has used its three attempts. *)
Lemma resetReconnectAttempts_fresh_budget_witness :
  is_disconnection "connected" = false
  ∧ on_event (mkManager 3 3 1000) (connectionstatechange "connected")
    = (mkManager 3 3 1000, [CallOnStateChange "connected"])
  ∧ on_events (resetReconnectAttempts (mkManager 3 3 1000))
      [iceconnectionstatechange "disconnected";
       iceconnectionstatechange "failed";
       iceconnectionstatechange "failed"]
    = (mkManager 3 3 1000,
       [ScheduleRestartIce 1000; ScheduleRestartIce 2000;
        ScheduleRestartIce 4000]).
Proof.
  pose proof (resetReconnectAttempts_fresh_budget (mkManager 3 3 1000))
    as (_ & _ & _ & Hquiet & Hbudget).
  split_and!; [reflexivity| |].
  - exact (proj1 (Hquiet "connected" eq_refl)).
  - exact (Hbudget eq_refl eq_refl "disconnected" "failed" "failed"
             eq_refl eq_refl eq_refl).
Defined.

(** C5, a counterexample to the claim: a manager that has used its three
    attempts and then sees the connection connected still counts three; the
    disconnection that follows schedules no restart. *)
Lemma connected_does_not_reset :
  reconnectAttempts
    (on_events new_ConnectionStateManager
       [connectionstatechange "failed"; connectionstatechange "failed";
        connectionstatechange "failed"; connectionstatechange "connected"]).1
  = 3
  ∧ on_events new_ConnectionStateManager
      [connectionstatechange "failed"; connectionstatechange "failed";
       connectionstatechange "failed"; connectionstatechange "connected";
       connectionstatechange "disconnected"]
    = (mkManager 3 3 1000,
       [CallOnStateChange "failed"; ScheduleRestartIce 1000;
        CallOnStateChange "failed"; ScheduleRestartIce 2000;
        CallOnStateChange "failed"; ScheduleRestartIce 4000;
        CallOnStateChange "connected"; CallOnStateChange "disconnected"]).
Proof. split; vm_compute; reflexivity. Qed.

(** ** The signaling service *)




(** C7, as the code has it: an offer, answer or candidate message whose
    [to] is not the local user name is handed by the signaling service to
    the registered [onSignalingMessage] callback like any other; the
    meeting's handler, which is that callback, returns at once and handles
    nothing. *)
Theorem misaddressed_message_not_processed (s : Signaling.SignalingService)
    (username : string) (m : Signaling.message) :
  Signaling.type m = "offer" ∨ Signaling.type m = "answer"
    ∨ Signaling.type m = "ice_candidate" →
  Signaling.to m ≠ Some username →
  (Signaling.handleSignalingMessage s m).2
  = match Signaling.onSignalingMessage s with
    | Some f => [Signaling.call_onSignalingMessage f m]
    | None => []
    end
  ∧ Meeting.handleSignalingMessage username m = [].
Proof.
  intros Hkind Hto. split.
  - unfold Signaling.handleSignalingMessage.
    destruct Hkind as [Ht|[Ht|Ht]]; rewrite Ht; simpl;
      by destruct (Signaling.onSignalingMessage s).
  - unfold Meeting.handleSignalingMessage.
    by rewrite bool_decide_eq_false_2.
Qed.

(** The theorem on an offer for carol received by alice. *)
Lemma misaddressed_message_not_processed_witness :
  Signaling.to (offer_to "carol") ≠ Some "alice"
  ∧ Meeting.handleSignalingMessage "alice" (offer_to "carol") = []
  ∧ Meeting.handleSignalingMessage "alice" (offer_to "alice")
    = [Meeting.handleOffer (offer_to "alice")].
Proof.
  assert (Signaling.to (offer_to "carol") ≠ Some "alice") as Hto
    by discriminate.
  split_and!; [exact Hto| |reflexivity].
  exact (proj2 (misaddressed_message_not_processed
                  (alice_service Signaling.OPEN) "alice" (offer_to "carol")
                  (or_introl eq_refl) Hto)).
Defined.

(** C7, a counterexample to the claim: an offer addressed to another
    participant is dispatched to the registered handler. *)
Lemma misaddressed_offer_is_dispatched :
  Signaling.to (offer_to "carol")
    ≠ Signaling.svc_username (alice_service Signaling.OPEN)
  ∧ (Signaling.handleSignalingMessage (alice_service Signaling.OPEN)
       (offer_to "carol")).2
    = [Signaling.call_onSignalingMessage "handleSignalingMessage"
         (offer_to "carol")].
Proof. split; [discriminate|reflexivity]. Qed.

(** ** The fallback for [createOffer] and the registry of connections *)

Lemma fallbackOptions_flags (options : gmap string bool) :
  fallbackOptions options !! "offerToReceiveAudio" = Some true
  ∧ fallbackOptions options !! "offerToReceiveVideo" = Some true
  ∧ fallbackOptions options !! "voiceActivityDetection" = Some true
  ∧ (∀ k, k ≠ "offerToReceiveAudio" → k ≠ "offerToReceiveVideo" →
          k ≠ "voiceActivityDetection" →
          fallbackOptions options !! k = options !! k).
Proof.
  unfold fallbackOptions. split_and!.
  - rewrite !lookup_insert_ne by done. apply lookup_insert_eq.
  - rewrite lookup_insert_ne by done. apply lookup_insert_eq.
  - apply lookup_insert_eq.
  - intros k ? ? ?. by rewrite !lookup_insert_ne by done.
Qed.

Lemma getPendingCandidates_store s peerId c :
  Signaling.getPendingCandidates
    (Signaling.storePendingCandidate s peerId c) peerId
  = Signaling.getPendingCandidates s peerId ++ [c].
Proof.
  unfold Signaling.getPendingCandidates, Signaling.storePendingCandidate.
  destruct (Signaling.pendingCandidates s !! peerId) as [queue|] eqn:Hq.
  - rewrite bool_decide_eq_true_2 by done. simpl.
    by rewrite lookup_alter_eq, Hq.
  - rewrite bool_decide_eq_false_2 by (by intros [? ?]). simpl.
    by rewrite lookup_alter_eq, lookup_insert_eq.
Qed.

Lemma getPendingCandidates_store_all s peerId cs :
  Signaling.getPendingCandidates
    (foldl (λ s c, Signaling.storePendingCandidate s peerId c) s cs) peerId
  = Signaling.getPendingCandidates s peerId ++ cs.
Proof.
  revert s. induction cs as [|c cs IH]; intros s; simpl.
  - by rewrite app_nil_r.
  - by rewrite IH, getPendingCandidates_store, <- app_assoc.
Qed.

Lemma getPendingCandidates_clear s peerId :
  Signaling.getPendingCandidates
    (Signaling.clearPendingCandidates s peerId) peerId = [].
Proof.
  unfold Signaling.getPendingCandidates, Signaling.clearPendingCandidates.
  simpl. by rewrite lookup_delete_eq.
Qed.

Lemma createPeerConnection_registers peerId cfg st :
  WebRTC.get_connection (WebRTC.createPeerConnection peerId cfg st).2 peerId
  = Some ((WebRTC.createPeerConnection peerId cfg st).1,
          setupFallbackMechanism
            (new_RTCPeerConnection (default WebRTC.default_iceServers cfg))).
Proof.
  unfold WebRTC.get_connection, WebRTC.createPeerConnection. simpl.
  by rewrite !lookup_insert_eq.
Qed.

Section Registry.
Context `{Platform}.

(** The function [setupFallbackMechanism] installs, in terms of the native
    primitive. *)
Lemma pc_createOffer_fallback pc options :
  createOffer_property pc = fallbackCreateOffer nativeCreateOffer →
  pc_createOffer pc options
  = match native_createOffer pc options with
    | (Normal offer, pc1) => (Normal offer, pc1, [options])
    | (Throw _, pc1) =>
        (native_createOffer pc1 (fallbackOptions options),
         [options; fallbackOptions options])
    end.
Proof.
  intros Hp. unfold pc_createOffer. rewrite Hp. simpl.
  destruct (native_createOffer pc options) as [[offer|e] pc1]; [done|].
  by destruct (native_createOffer pc1 (fallbackOptions options)).
Qed.

(** C9: for a connection of the registry, whose [createOffer] is the one
    [setupFallbackMechanism] installed, a call of the service's
    [createOffer] makes at most two attempts on the native primitive, those
    of the connection's [createOffer].  When the attempt with the caller's
    options succeeds it is the only one.  When it fails there is exactly one
    more, with the fallback options, and its outcome is the outcome of the
    connection's [createOffer]: on success the service returns that
    description (once [setLocalDescription] accepted it), on failure the
    error reaches the caller.  The fallback options are the caller's with
    [offerToReceiveAudio], [offerToReceiveVideo] and
    [voiceActivityDetection] set to true. *)
Theorem createOffer_retries_once (st : WebRTC.state) (peerId : string)
    (h : nat) (pc : RTCPeerConnection) (options : gmap string bool) :
  WebRTC.get_connection st peerId = Some (h, pc) →
  createOffer_property pc = fallbackCreateOffer nativeCreateOffer →
  (length (WebRTC.createOffer peerId options st).2 ≤ 2)%nat
  ∧ (WebRTC.createOffer peerId options st).2 = (pc_createOffer pc options).2
  ∧ match native_createOffer pc options with
    | (Normal offer, pc1) =>
        pc_createOffer pc options = (Normal offer, pc1, [options])
    | (Throw _, pc1) =>
        (pc_createOffer pc options).2 = [options; fallbackOptions options]
        ∧ (pc_createOffer pc options).1
          = native_createOffer pc1 (fallbackOptions options)
        ∧ match native_createOffer pc1 (fallbackOptions options) with
          | (Normal offer, pc2) =>
              (native_setLocalDescription pc2 offer).1 = Normal () →
              (WebRTC.createOffer peerId options st).1.1 = Normal offer
          | (Throw error, _) =>
              (WebRTC.createOffer peerId options st).1.1 = Throw error
          end
    end
  ∧ fallbackOptions options !! "offerToReceiveAudio" = Some true
  ∧ fallbackOptions options !! "offerToReceiveVideo" = Some true
  ∧ fallbackOptions options !! "voiceActivityDetection" = Some true
  ∧ (∀ k, k ≠ "offerToReceiveAudio" → k ≠ "offerToReceiveVideo" →
          k ≠ "voiceActivityDetection" →
          fallbackOptions options !! k = options !! k).
Proof.
  intros Hget Hprop.
  pose proof (pc_createOffer_fallback pc options Hprop) as Hw.
  unfold WebRTC.createOffer. rewrite Hget, Hw.
  destruct (native_createOffer pc options) as [[offer|e] pc1].
  - split_and!; try apply fallbackOptions_flags; [| |done].
    + destruct (native_setLocalDescription pc1 offer) as [[?|?] ?]; simpl; lia.
    + by destruct (native_setLocalDescription pc1 offer) as [[?|?] ?].
  - destruct (native_createOffer pc1 (fallbackOptions options))
      as [[offer|e2] pc2] eqn:Hretry.
    + split_and!; try apply fallbackOptions_flags; try done.
      * destruct (native_setLocalDescription pc2 offer) as [[?|?] ?];
          simpl; lia.
      * by destruct (native_setLocalDescription pc2 offer) as [[?|?] ?].
      * by destruct (native_setLocalDescription pc2 offer) as [[[]|?] ?].
    + split_and!; try apply fallbackOptions_flags; done.
Qed.

(** C1, as the code has it: [addIceCandidate] for a peer without a
    connection throws the "No peer connection found" error and leaves the
    state as it was: nothing is queued.  The connection
    [createPeerConnection] then registers has no remote candidate: nothing
    is replayed.  The queue of pending candidates is the signaling
    service's: candidates stored with [storePendingCandidate] are returned
    by [getPendingCandidates] after those already there, in the order they
    were stored, each once, and [clearPendingCandidates] empties the
    queue. *)
Theorem addIceCandidate_without_connection (st : WebRTC.state)
    (peerId : string) (c : RTCIceCandidate) (cfg : option (list string)) :
  WebRTC.peerConnections (WebRTC.service st) !! peerId = None →
  WebRTC.addIceCandidate peerId c st
  = (Throw (WebRTC.no_peer_error peerId), st)
  ∧ (∃ pc,
       WebRTC.get_connection
         (WebRTC.createPeerConnection peerId cfg st).2 peerId
       = Some ((WebRTC.createPeerConnection peerId cfg st).1, pc)
       ∧ remoteCandidates pc = [])
  ∧ (∀ (s : Signaling.SignalingService) (cs : list RTCIceCandidate),
       Signaling.getPendingCandidates
         (foldl (λ s c, Signaling.storePendingCandidate s peerId c) s cs)
         peerId
       = Signaling.getPendingCandidates s peerId ++ cs
       ∧ Signaling.getPendingCandidates
           (Signaling.clearPendingCandidates
              (foldl (λ s c, Signaling.storePendingCandidate s peerId c) s cs)
              peerId) peerId = []).
Proof.
  intros Hnone. split_and!.
  - unfold WebRTC.addIceCandidate, WebRTC.get_connection. by rewrite Hnone.
  - eexists. split; [apply createPeerConnection_registers|done].
  - intros s cs. split.
    + apply getPendingCandidates_store_all.
    + apply getPendingCandidates_clear.
Qed.

(** C2, as the code has it: [createPeerConnection] always constructs a
    connection, under a reference no object had before, and registers it
    for the peer, whatever was registered before; the new connection has no
    local or remote description and no remote candidate, signaling state
    stable and connection state new; the entries of the other peers and all
    other objects are untouched, an earlier connection of the same peer
    included, which is not closed.  After [closeConnection] the peer has no
    entry, its former connection is closed, and [createPeerConnection] gives
    the peer such a new connection under a reference different from the
    closed one. *)
Theorem createPeerConnection_replaces (st : WebRTC.state) (peerId : string)
    (cfg : option (list string)) :
  let h := (WebRTC.createPeerConnection peerId cfg st).1 in
  let st' := (WebRTC.createPeerConnection peerId cfg st).2 in
  let fresh_pc :=
    setupFallbackMechanism
      (new_RTCPeerConnection (default WebRTC.default_iceServers cfg)) in
  WebRTC.objects st !! h = None
  ∧ WebRTC.peerConnections (WebRTC.service st') !! peerId = Some h
  ∧ WebRTC.objects st' !! h = Some fresh_pc
  ∧ localDescription fresh_pc = None
  ∧ remoteDescription fresh_pc = None
  ∧ remoteCandidates fresh_pc = []
  ∧ signalingState fresh_pc = "stable"
  ∧ connectionState fresh_pc = "new"
  ∧ (∀ q, q ≠ peerId →
       WebRTC.peerConnections (WebRTC.service st') !! q
       = WebRTC.peerConnections (WebRTC.service st) !! q)
  ∧ (∀ h', h' ≠ h → WebRTC.objects st' !! h' = WebRTC.objects st !! h')
  ∧ WebRTC.get_connection
      (WebRTC.createPeerConnection peerId cfg
         (WebRTC.closeConnection peerId st)).2 peerId
    = Some ((WebRTC.createPeerConnection peerId cfg
               (WebRTC.closeConnection peerId st)).1, fresh_pc)
  ∧ WebRTC.objects (WebRTC.closeConnection peerId st)
      !! (WebRTC.createPeerConnection peerId cfg
            (WebRTC.closeConnection peerId st)).1 = None
  ∧ (∀ h0 pc0, WebRTC.get_connection st peerId = Some (h0, pc0) →
       WebRTC.peerConnections
         (WebRTC.service (WebRTC.closeConnection peerId st)) !! peerId = None
       ∧ WebRTC.objects (WebRTC.closeConnection peerId st) !! h0
         = Some (native_close pc0)
       ∧ (WebRTC.createPeerConnection peerId cfg
            (WebRTC.closeConnection peerId st)).1 ≠ h0).
Proof.
  intros h st' fresh_pc. subst h st'. unfold WebRTC.createPeerConnection.
  simpl. split_and!; try done.
  - apply not_elem_of_dom, is_fresh.
  - apply lookup_insert_eq.
  - apply lookup_insert_eq.
  - intros q Hq. by rewrite lookup_insert_ne.
  - intros h' Hh. by rewrite lookup_insert_ne.
  - apply (createPeerConnection_registers peerId cfg
             (WebRTC.closeConnection peerId st)).
  - apply not_elem_of_dom, is_fresh.
  - intros h0 pc0 Hget.
    assert (WebRTC.objects (WebRTC.closeConnection peerId st) !! h0
            = Some (native_close pc0)) as Hclosed.
    { unfold WebRTC.closeConnection. rewrite Hget. simpl.
      apply lookup_insert_eq. }
    split_and!; [|done|].
    + unfold WebRTC.closeConnection. rewrite Hget. simpl.
      unfold WebRTC.stopStateMonitoring, WebRTC.stopQualityMonitoring.
      destruct (WebRTC.qualityMonitors (WebRTC.service st) !! peerId); simpl;
        destruct (WebRTC.stateManagers (WebRTC.service st) !! peerId); simpl;
        apply lookup_delete_eq.
    + intros Heq.
      pose proof (is_fresh
        (dom (WebRTC.objects (WebRTC.closeConnection peerId st)))) as Hf.
      apply not_elem_of_dom in Hf. rewrite Heq in Hf. congruence.
Qed.

End Registry.

(** *** On the example browsers *)

(** The theorem for a first offer to bob: the example browser rejects the
    empty options and accepts the fallback options; the rejecting browser
    rejects both. *)
Lemma createOffer_retries_once_witness :
  WebRTC.get_connection
    (WebRTC.createPeerConnection "bob" None WebRTC.initial_state).2 "bob"
  = Some (0%nat,
          setupFallbackMechanism
            (new_RTCPeerConnection WebRTC.default_iceServers))
  ∧ (length
       (@WebRTC.createOffer example_platform "bob" ∅
          (WebRTC.createPeerConnection "bob" None WebRTC.initial_state).2).2
     ≤ 2)%nat
  ∧ (@WebRTC.createOffer example_platform "bob" ∅
       (WebRTC.createPeerConnection "bob" None WebRTC.initial_state).2).1.1
    = Normal (mkDescription "offer" "v=0")
  ∧ (@WebRTC.createOffer example_platform "bob" ∅
       (WebRTC.createPeerConnection "bob" None WebRTC.initial_state).2).2
    = [∅; fallbackOptions ∅]
  ∧ (@WebRTC.createOffer rejecting_platform "bob" ∅
       (WebRTC.createPeerConnection "bob" None WebRTC.initial_state).2).1.1
    = Throw "OperationError".
Proof.
  assert (WebRTC.get_connection
            (WebRTC.createPeerConnection "bob" None WebRTC.initial_state).2
            "bob"
          = Some (0%nat,
                  setupFallbackMechanism
                    (new_RTCPeerConnection WebRTC.default_iceServers)))
    as Hget by reflexivity.
  split_and!; [exact Hget| |reflexivity|reflexivity|reflexivity].
  exact (proj1 (@createOffer_retries_once example_platform _ "bob" 0%nat _ ∅
                  Hget eq_refl)).
Defined.

(** The theorem on the initial state. *)
Lemma addIceCandidate_without_connection_witness :
  WebRTC.peerConnections (WebRTC.service WebRTC.initial_state) !! "bob" = None
  ∧ @WebRTC.addIceCandidate example_platform "bob" host_candidate
      WebRTC.initial_state
    = (Throw "No peer connection found for peer bob", WebRTC.initial_state).
Proof.
  assert (WebRTC.peerConnections (WebRTC.service WebRTC.initial_state)
            !! "bob" = None) as Hnone by reflexivity.
  split; [exact Hnone|].
  exact (proj1 (@addIceCandidate_without_connection example_platform
                  WebRTC.initial_state "bob" host_candidate None Hnone)).
Defined.

(** C1, a counterexample to the claim: a candidate for a peer without a
    connection is rejected with an error, the state is as before, and the
    connection created afterwards for that peer has received no
    candidate. *)
Lemma candidate_before_connection_is_rejected :
  @WebRTC.addIceCandidate example_platform "bob" host_candidate
    WebRTC.initial_state
  = (Throw "No peer connection found for peer bob", WebRTC.initial_state)
  ∧ (remoteCandidates <$>
       WebRTC.objects
         (WebRTC.createPeerConnection "bob" None
            (@WebRTC.addIceCandidate example_platform "bob" host_candidate
               WebRTC.initial_state).2).2 !! 0%nat)
    = Some [].
Proof. split; reflexivity. Qed.

(** The theorem after a first connection for bob. *)
Lemma createPeerConnection_replaces_witness :
  WebRTC.get_connection
    (WebRTC.createPeerConnection "bob" None
       (@WebRTC.closeConnection example_platform "bob"
          (WebRTC.createPeerConnection "bob" None WebRTC.initial_state).2)).2
    "bob"
  = Some (1%nat,
          setupFallbackMechanism
            (new_RTCPeerConnection WebRTC.default_iceServers)).
Proof.
  pose proof (@createPeerConnection_replaces example_platform
                (WebRTC.createPeerConnection "bob" None
                   WebRTC.initial_state).2 "bob" None)
    as (_ & _ & _ & _ & _ & _ & _ & _ & _ & _ & Hagain & _).
  exact Hagain.
Defined.

(** C2, a counterexample to the claim: a second [createPeerConnection] for
    the same peer returns another connection than the first and registers
    it; the first one, here with an offer under way, stays open and is no
    longer reachable from the registry, and the entry of the peer is back
    to a connection without descriptions. *)
Lemma createPeerConnection_twice_allocates :
  let created := WebRTC.createPeerConnection "bob" None WebRTC.initial_state in
  let offered := (@WebRTC.createOffer example_platform "bob" ∅ created.2).1.2 in
  let again := WebRTC.createPeerConnection "bob" None offered in
  created.1 = 0%nat
  ∧ again.1 = 1%nat
  ∧ again.2 ≠ offered
  ∧ WebRTC.peerConnections (WebRTC.service again.2) !! "bob" = Some 1%nat
  ∧ (signalingState <$> WebRTC.objects again.2 !! 0%nat)
    = Some "have-local-offer"
  ∧ (localDescription <$> WebRTC.objects again.2 !! 0%nat)
    = Some (Some (mkDescription "offer" "v=0"))
  ∧ (signalingState <$> WebRTC.objects again.2 !! 1%nat) = Some "stable"
  ∧ (localDescription <$> WebRTC.objects again.2 !! 1%nat) = Some None.
Proof.
  split_and!; try reflexivity.
  intros Heq.
  apply (f_equal (λ st, WebRTC.peerConnections (WebRTC.service st) !! "bob"))
    in Heq.
  vm_compute in Heq. discriminate.
Qed.

(** * Further properties *)

(** ** [optimizeIceCandidates] *)

Lemma getPriority_range s : 0 ≤ getPriority s ≤ 3.
Proof. unfold getPriority. repeat case_match; lia. Qed.

Lemma keep_first_fixpoint seen l :
  NoDup (candidate_key <$> l) →
  (∀ c, c ∈ l → candidate_key c ∉ seen) →
  keep_first_occurrence seen l = l.
Proof.
  revert seen. induction l as [|x l IH]; intros seen Hnd Hseen; simpl; [done|].
  rewrite fmap_cons in Hnd. apply NoDup_cons in Hnd as [Hx Hnd].
  rewrite decide_False by (apply Hseen; by left).
  f_equal. apply IH; [done|].
  intros c Hc. rewrite not_elem_of_cons. split.
  - intros Heq. apply Hx. rewrite <- Heq. apply list_elem_of_fmap. by exists c.
  - apply Hseen. by right.
Qed.

Lemma Array_sort_sorted_fixpoint {A : Type} (prio : A → Z) (cmp : A → A → Z)
    (l : list A) :
  (∀ a b, cmp a b = prio b - prio a) →
  StronglySorted (descending prio) l → Array_sort cmp l = l.
Proof.
  intros Hcmp. induction 1 as [|x l Hs IH Hall]; [done|].
  unfold Array_sort in *. simpl. rewrite IH.
  destruct l as [|y l']; [done|]. simpl.
  apply Forall_cons in Hall as [Hy _]. unfold descending in Hy.
  rewrite Hcmp. by rewrite (proj2 (Z.ltb_ge 0 (prio y - prio x))) by lia.
Qed.

(** X1: [optimizeIceCandidates] is idempotent: optimizing an optimized
    array changes nothing. *)
Theorem optimizeIceCandidates_idempotent (l : list RTCIceCandidate) :
  optimizeIceCandidates (optimizeIceCandidates l) = optimizeIceCandidates l.
Proof.
  unfold optimizeIceCandidates at 1.
  assert (uniqueCandidates (optimizeIceCandidates l) = optimizeIceCandidates l)
    as ->.
  { rewrite uniqueCandidates_keep_first. apply keep_first_fixpoint.
    - unfold optimizeIceCandidates.
      rewrite (Array_sort_perm compareCandidates), uniqueCandidates_keep_first.
      apply keep_first_NoDup.
    - intros c _. apply not_elem_of_nil. }
  apply (Array_sort_sorted_fixpoint priority); [done|].
  apply Array_sort_sorted, compareCandidates_priority.
Qed.

Lemma keep_first_covers seen l c :
  c ∈ l → candidate_key c ∉ seen →
  ∃ c', c' ∈ keep_first_occurrence seen l ∧ candidate_key c' = candidate_key c.
Proof.
  revert seen. induction l as [|x l IH]; intros seen Hc Hseen; simpl.
  - by apply elem_of_nil in Hc.
  - apply elem_of_cons in Hc as [->|Hc].
    + rewrite decide_False by done. exists x. split; [by left|done].
    + destruct (decide (candidate_key x ∈ seen)); [by apply IH|].
      destruct (decide (candidate_key c = candidate_key x)) as [Heq|Hne].
      * exists x. split; [by left|done].
      * destruct (IH (candidate_key x :: seen) Hc) as (c' & Hc' & Hk).
        { rewrite not_elem_of_cons. done. }
        exists c'. split; [by right|done].
Qed.

(** X2: the result of [optimizeIceCandidates] holds only candidates of the
    input and is no longer than it; every candidate of the input is
    represented in the result by a candidate with the same
    (candidate string, sdpMid) pair; the empty array gives the empty
    array. *)
Theorem optimizeIceCandidates_covers_input (l : list RTCIceCandidate) :
  (∀ c, c ∈ optimizeIceCandidates l → c ∈ l)
  ∧ (length (optimizeIceCandidates l) ≤ length l)%nat
  ∧ (∀ c, c ∈ l →
       ∃ c', c' ∈ optimizeIceCandidates l
             ∧ candidate c' = candidate c ∧ sdpMid c' = sdpMid c)
  ∧ optimizeIceCandidates [] = [].
Proof.
  unfold optimizeIceCandidates. rewrite uniqueCandidates_keep_first.
  split_and!.
  - intros c. rewrite (Array_sort_perm compareCandidates).
    intros Hc. eapply elem_of_sublist; [done|apply keep_first_sublist].
  - rewrite (Array_sort_perm compareCandidates).
    apply sublist_length, keep_first_sublist.
  - intros c Hc.
    destruct (keep_first_covers [] l c Hc) as (c' & Hc' & Hk);
      [apply not_elem_of_nil|].
    exists c'. rewrite (Array_sort_perm compareCandidates).
    unfold candidate_key in Hk. by simplify_eq.
  - done.
Qed.

(** X3: the comparator of the sort is consistent: it is antisymmetric,
    zero on equal arguments, transitive, and its values lie between -3 and
    3; so the order of the sorted array does not depend on the sorting
    algorithm of the engine. *)
Theorem compareCandidates_consistent (a b c : RTCIceCandidate) :
  compareCandidates a b = - compareCandidates b a
  ∧ compareCandidates a a = 0
  ∧ -3 ≤ compareCandidates a b ≤ 3
  ∧ (compareCandidates a b ≤ 0 → compareCandidates b c ≤ 0 →
     compareCandidates a c ≤ 0)
  ∧ (compareCandidates a b = 0 → compareCandidates b c = 0 →
     compareCandidates a c = 0).
Proof.
  unfold compareCandidates.
  pose proof (getPriority_range (candidate a)).
  pose proof (getPriority_range (candidate b)).
  split_and!; lia.
Qed.

(** ** The quality monitor *)

(** X4: a report without an inbound video entry, the empty report
    included, leaves the baseline of the monitor as it is and is emitted as
    quality poor with bitrate 0 and loss rate 0. *)
Theorem sample_without_video_entry (m : ConnectionQualityMonitor)
    (stats : list RTCStats) (date_now : Z) :
  Forall (λ r, ¬ (type r = "inbound-rtp" ∧ kind r = "video")) stats →
  sample m stats date_now
  = (m, (poor, mkMetrics 0 0 date_now)).
Proof.
  intros Hall. unfold sample. rewrite foldl_visit_report_skip by done.
  by destruct m.
Qed.

Lemma sample_without_video_entry_witness :
  sample new_ConnectionQualityMonitor
    [mkStats "inbound-rtp" "audio" 1000 4000 (Some 2%float) 50;
     mkStats "outbound-rtp" "video" 1000 9000 None 0] 7
  = (new_ConnectionQualityMonitor, (poor, mkMetrics 0 0 7)).
Proof.
  apply sample_without_video_entry.
  repeat constructor; intros [? ?]; discriminate.
Defined.

(** X5: when the one inbound video entry of a report carries the
    timestamp of the recorded baseline, a finite one, the bitrate is a
    division by zero.  With [n] the double [8 * (bytes - lastBytes)]: a
    positive [n] (more bytes than the baseline) gives bitrate Infinity,
    reported as quality good; a zero [n] (the same byte count) gives NaN,
    also reported as good; a negative [n] gives -Infinity, reported as
    poor. *)
Theorem sample_same_timestamp (m : ConnectionQualityMonitor)
    (pre suf : list RTCStats) (r : RTCStats) (date_now : Z) :
  type r = "inbound-rtp" → kind r = "video" →
  Forall not_inbound_video pre → Forall not_inbound_video suf →
  truthy (lastTimestamp m) = true → is_finite (lastTimestamp m) = true →
  timestamp r = lastTimestamp m → packetsLost r = None →
  ((0 <? 8 * (bytesReceived r - lastBitrate m))%float = true →
   (sample m (pre ++ r :: suf) date_now).2
   = (good, mkMetrics infinity 0 date_now))
  ∧ ((8 * (bytesReceived r - lastBitrate m) =? 0)%float = true →
     (sample m (pre ++ r :: suf) date_now).2
     = (good, mkMetrics nan 0 date_now))
  ∧ ((8 * (bytesReceived r - lastBitrate m) <? 0)%float = true →
     (sample m (pre ++ r :: suf) date_now).2
     = (poor, mkMetrics neg_infinity 0 date_now)).
Proof.
  intros Ht Hk Hpre Hsuf Htruthy Hfin Hts Hlost.
  change (pre ++ r :: suf) with (pre ++ [r] ++ suf).
  rewrite (sample_other_entries m pre [r] suf date_now Hpre Hsuf).
  pose proof (visit_report_inbound_video
    (mkAcc 0 0 0 (lastBitrate m) (lastTimestamp m)) r Ht Hk)
    as (_ & _ & Htot & Hl & Hp).
  cbn [accLastTimestamp accLastBitrate totalBitrate accPacketsLost
    totalPackets] in Htot, Hl, Hp.
  rewrite Htruthy, Hts, (sub_diag_finite _ Hfin) in Htot.
  rewrite Hlost in Hl, Hp.
  unfold sample. cbn [foldl snd]. rewrite Htot, Hl, Hp.
  destruct (div_zero (8 * (bytesReceived r - lastBitrate m))%float)
    as (Hpos & Hneg & Hzero).
  split_and!; intros Hn.
  - by rewrite (Hpos Hn).
  - by rewrite (Hzero Hn).
  - by rewrite (Hneg Hn).
Qed.

Lemma sample_same_timestamp_witness :
  (sample (mkMonitor (Some 1) 125000 1000)
     ([audio_stats]
      ++ mkStats "inbound-rtp" "video" 1000 125000 None 100 :: [])
     20).2
  = (good, mkMetrics nan 0 20).
Proof.
  assert (Forall not_inbound_video [audio_stats]) as Hpre.
  { repeat constructor. intros [_ ?]. discriminate. }
  apply (proj1 (proj2 (sample_same_timestamp
    (mkMonitor (Some 1) 125000 1000) [audio_stats] []
    (mkStats "inbound-rtp" "video" 1000 125000 None 100)
    20 eq_refl eq_refl Hpre (Forall_nil_2 _) eq_refl eq_refl eq_refl
    eq_refl))).
  reflexivity.
Defined.

(** X6: for a report whose one inbound video entry counts [lost] lost and
    [packetsReceived] received packets, the emitted loss rate is the double
    quotient of [0 + lost] by the total [0 + (packetsReceived + lost)] when
    that total is greater than 0, and 0 otherwise; for an entry without a
    [packetsLost] count it is 0.  So 5 packets lost of 100 are emitted as
    0.05, which is not more than 5% and classified fair at a bitrate that
    alone gives good, and 1 lost of 3 as 0.3333333333333333. *)
Theorem sample_packet_loss_rate (m : ConnectionQualityMonitor)
    (pre suf : list RTCStats) (r : RTCStats) (date_now : Z) :
  type r = "inbound-rtp" → kind r = "video" →
  Forall not_inbound_video pre → Forall not_inbound_video suf →
  (packetsLost r = None →
   packetLossRate (sample m (pre ++ r :: suf) date_now).2.2 = 0%float)
  ∧ (∀ lost : float,
       packetsLost r = Some lost →
       packetLossRate (sample m (pre ++ r :: suf) date_now).2.2
       = if (0 <? 0 + (packetsReceived r + lost))%float
         then ((0 + lost) / (0 + (packetsReceived r + lost)))%float
         else 0%float)
  ∧ (sample (mkMonitor None 0 1000)
       [mkStats "inbound-rtp" "video" 2000 125000000 (Some 5%float) 95]
       date_now).2
    = (fair, mkMetrics 1000000 0.05 date_now)
  ∧ packetLossRate
      (sample m [mkStats "inbound-rtp" "video" 2000 0 (Some 1%float) 2]
         date_now).2.2
    = 0.3333333333333333%float.
Proof.
  intros Ht Hk Hpre Hsuf.
  change (pre ++ r :: suf) with (pre ++ [r] ++ suf).
  rewrite (sample_other_entries m pre [r] suf date_now Hpre Hsuf).
  pose proof (visit_report_inbound_video
    (mkAcc 0 0 0 (lastBitrate m) (lastTimestamp m)) r Ht Hk)
    as (_ & _ & _ & Hl & Hp).
  cbn [accPacketsLost totalPackets] in Hl, Hp.
  unfold sample. cbn [foldl snd packetLossRate]. rewrite Hl, Hp.
  split_and!.
  - by intros ->.
  - by intros lost ->.
  - vm_compute. reflexivity.
  - destruct m. vm_compute. reflexivity.
Qed.

Lemma sample_packet_loss_rate_witness :
  packetLossRate
    (sample new_ConnectionQualityMonitor
       ([audio_stats]
        ++ mkStats "inbound-rtp" "video" 1000 125000 (Some 5%float) 95
        :: [outbound_stats]) 20).2.2
  = 0.05%float.
Proof.
  assert (Forall not_inbound_video [audio_stats]) as Hpre.
  { repeat constructor. intros [_ ?]. discriminate. }
  assert (Forall not_inbound_video [outbound_stats]) as Hsuf.
  { repeat constructor. intros [? _]. discriminate. }
  rewrite (proj1 (proj2 (sample_packet_loss_rate new_ConnectionQualityMonitor
    [audio_stats] [outbound_stats]
    (mkStats "inbound-rtp" "video" 1000 125000 (Some 5%float) 95) 20
    eq_refl eq_refl Hpre Hsuf)) 5%float eq_refl).
  reflexivity.
Defined.

(** ** The connection state manager *)

Lemma restart_delays_app e1 e2 :
  restart_delays (e1 ++ e2) = restart_delays e1 ++ restart_delays e2.
Proof. apply omap_app. Qed.

(** One event, for a manager with the constructor's limits. *)
Lemma on_event_constructor_limits (n : Z) (ev : connection_event) :
  0 ≤ n ≤ 3 →
  let m := mkManager n 3 1000 in
  if is_disconnection (event_state ev) then
    (on_event m ev).1 = mkManager (Z.min 3 (n + 1)) 3 1000
    ∧ restart_delays (on_event m ev).2
      = take 1 (drop (Z.to_nat n) [1000; 2000; 4000])
  else (on_event m ev).1 = m ∧ restart_delays (on_event m ev).2 = [].
Proof.
  intros Hn m. subst m.
  assert (n = 0 ∨ n = 1 ∨ n = 2 ∨ n = 3) as Hcases by lia.
  destruct ev as [state|state]; simpl;
    destruct (is_disconnection state); simpl; try done;
    destruct Hcases as [-> | [-> | [-> | ->]]]; done.
Qed.

Lemma on_events_constructor_limits (n : Z) (evs : list connection_event) :
  0 ≤ n ≤ 3 →
  (on_events (mkManager n 3 1000) evs).1
  = mkManager (Z.min 3 (n + Z.of_nat (disconnections evs))) 3 1000
  ∧ restart_delays (on_events (mkManager n 3 1000) evs).2
    = take (disconnections evs) (drop (Z.to_nat n) [1000; 2000; 4000]).
Proof.
  revert n. induction evs as [|ev evs IH]; intros n Hn.
  - unfold disconnections. simpl. split; [f_equal; lia|by rewrite take_0].
  - pose proof (on_event_constructor_limits n ev Hn) as Hstep.
    cbn zeta in Hstep. cbn [on_events].
    destruct (on_event (mkManager n 3 1000) ev) as [m1 e1] eqn:Hev.
    unfold disconnections. rewrite filter_cons.
    destruct (is_disconnection (event_state ev)) eqn:Hd.
    + rewrite decide_True by done. destruct Hstep as [Hm Hdel].
      cbn [fst snd] in Hm, Hdel. subst m1.
      assert (0 ≤ Z.min 3 (n + 1) ≤ 3) as Hn' by (clear -Hn; lia).
      destruct (IH (Z.min 3 (n + 1)) Hn') as [IHm IHd].
      destruct (on_events (mkManager (Z.min 3 (n + 1)) 3 1000) evs)
        as [m2 e2].
      cbn [fst snd] in *. fold (disconnections evs) in *.
      rewrite restart_delays_app, Hdel, IHd, IHm. split.
      * f_equal. cbn [length]. fold (disconnections evs). lia.
      * cbn [length]. fold (disconnections evs).
        assert (n = 0 ∨ n = 1 ∨ n = 2 ∨ n = 3) as Hcases by lia.
        destruct Hcases as [-> | [-> | [-> | ->]]];
          by destruct (disconnections evs) as [|[|[|?]]].
    + rewrite decide_False by done. destruct Hstep as [Hm Hdel].
      cbn [fst snd] in Hm, Hdel. subst m1.
      destruct (IH n Hn) as [IHm IHd].
      destruct (on_events (mkManager n 3 1000) evs) as [m2 e2].
      cbn [fst snd] in *.
      by rewrite restart_delays_app, Hdel, IHd, IHm.
Qed.

(** X7: over any sequence of events after construction, each event of
    either listener that reports disconnected or failed uses one attempt,
    until three are used: the counter ends at the number of such events,
    at most 3, and the restarts scheduled are, in order, after 1000, 2000
    and 4000 ms, one for each of the first three such events and none
    after. *)
Theorem restarts_bounded (evs : list connection_event) :
  reconnectAttempts (on_events new_ConnectionStateManager evs).1
  = Z.min 3 (Z.of_nat (disconnections evs))
  ∧ restart_delays (on_events new_ConnectionStateManager evs).2
    = take (disconnections evs) [1000; 2000; 4000]
  ∧ (length (restart_delays (on_events new_ConnectionStateManager evs).2)
     ≤ 3)%nat.
Proof.
  destruct (on_events_constructor_limits 0 evs ltac:(lia)) as [Hm Hd].
  unfold new_ConnectionStateManager. rewrite Hm, Hd. simpl.
  split_and!; [done|done|].
  rewrite length_take. simpl. lia.
Qed.

(** ** The timer of the quality monitor *)

(** X8: [stopMonitoring] clears the interval of the latest
    [startMonitoring] and is idempotent; when [startMonitoring] runs twice
    on a monitor, the interval of the first run keeps running and no
    [stopMonitoring] clears it. *)
Theorem stopMonitoring_clears_latest (m : ConnectionQualityMonitor)
    (t : timers) :
  0 < next_timer t →
  (∀ i, i ∈ running t → i < next_timer t) →
  let started := startMonitoring m t in
  let stopped := stopMonitoring started.1 started.2 in
  let restarted := startMonitoring started.1 started.2 in
  let stopped_late := stopMonitoring restarted.1 restarted.2 in
  statsInterval started.1 = Some (next_timer t)
  ∧ running started.2 = {[next_timer t]} ∪ running t
  ∧ statsInterval stopped.1 = None
  ∧ running stopped.2 = running t
  ∧ stopMonitoring stopped.1 stopped.2 = stopped
  ∧ statsInterval stopped_late.1 = None
  ∧ running stopped_late.2 = {[next_timer t]} ∪ running t
  ∧ stopMonitoring stopped_late.1 stopped_late.2 = stopped_late.
Proof.
  intros Hpos Hfresh. simpl.
  assert (next_timer t ∉ running t) as Hnew.
  { intros Hin. apply Hfresh in Hin. lia. }
  unfold stopMonitoring. simpl.
  rewrite !bool_decide_eq_false_2 by lia. simpl.
  split_and!; try done.
  - apply set_eq. intros i.
    rewrite elem_of_difference, elem_of_union, elem_of_singleton. split.
    + by intros [[->|?] ?].
    + intros Hi. split; [by right|]. by intros ->.
  - apply set_eq. intros i. rewrite !elem_of_difference, !elem_of_union,
      !elem_of_singleton. split.
    + intros [[->|[->|?]] ?]; [lia|by left|by right].
    + intros [->|Hi]; [split; [right; by left|lia]|].
      split; [by right; right|]. apply Hfresh in Hi. lia.
Qed.

Lemma stopMonitoring_clears_latest_witness :
  running
    (stopMonitoring
       (startMonitoring
          (startMonitoring new_ConnectionQualityMonitor (mkTimers ∅ 1)).1
          (startMonitoring new_ConnectionQualityMonitor (mkTimers ∅ 1)).2).1
       (startMonitoring
          (startMonitoring new_ConnectionQualityMonitor (mkTimers ∅ 1)).1
          (startMonitoring new_ConnectionQualityMonitor (mkTimers ∅ 1)).2).2).2
  = {[1]} ∪ ∅.
Proof.
  assert (∀ i : Z, i ∈ running (mkTimers ∅ 1) → i < next_timer (mkTimers ∅ 1))
    as Hfresh by (intros i Hi; by apply elem_of_empty in Hi).
  assert (0 < next_timer (mkTimers ∅ 1)) as Hpos by reflexivity.
  exact (proj1 (proj2 (proj2 (proj2 (proj2 (proj2 (proj2
    (stopMonitoring_clears_latest new_ConnectionQualityMonitor
       (mkTimers ∅ 1) Hpos Hfresh)))))))).
Defined.

(** ** The signaling service *)

(** The types [handleSignalingMessage] has a case for. *)
Lemma handleSignalingMessage_unknown s m :
  Signaling.type m ∉
    ["room_created"; "room_joined"; "participant_joined"; "participant_left";
     "offer"; "answer"; "ice_candidate"] →
  Signaling.handleSignalingMessage s m
  = (Signaling.console_write
       (Signaling.console_write s "Received signaling message:")
       "Unknown message type:", []).
Proof.
  intros Hout. unfold Signaling.handleSignalingMessage.
  rewrite !bool_decide_eq_false_2; [done|..];
    intros Heq; apply Hout; rewrite Heq; repeat constructor.
Qed.

(** X9: [handleSignalingMessage] calls at most one callback for a message,
    and each call is of the callback registered for the type of the message,
    with the property of the message that belongs to it.  The service is
    left as it was but for the console: for a type with a case, the one line
    logged for every message is added; a message of a type without a case (a
    join message, say) reaches no callback and is also logged as unknown.
    A call of [onSignalingMessage] carries the received message, which is
    an offer, an answer or a candidate. *)
Theorem handleSignalingMessage_routes_once (s : Signaling.SignalingService)
    (m : Signaling.message) :
  (length (Signaling.handleSignalingMessage s m).2 ≤ 1)%nat
  ∧ (Signaling.type m ∈
       ["room_created"; "room_joined"; "participant_joined";
        "participant_left"; "offer"; "answer"; "ice_candidate"] →
     (Signaling.handleSignalingMessage s m).1
     = Signaling.console_write s "Received signaling message:")
  ∧ (Signaling.type m ∉
       ["room_created"; "room_joined"; "participant_joined";
        "participant_left"; "offer"; "answer"; "ice_candidate"] →
     Signaling.handleSignalingMessage s m
     = (Signaling.console_write
          (Signaling.console_write s "Received signaling message:")
          "Unknown message type:", []))
  ∧ (Signaling.handleSignalingMessage s m).1
    = Signaling.mkService (Signaling.socket s)
        (Signaling.onSignalingMessage s) (Signaling.onRoomCreated s)
        (Signaling.onRoomJoined s) (Signaling.onRoomError s)
        (Signaling.onParticipantJoined s) (Signaling.onParticipantLeft s)
        (Signaling.svc_roomName s) (Signaling.svc_username s)
        (Signaling.pendingCandidates s)
        (Signaling.console (Signaling.handleSignalingMessage s m).1)
  ∧ (∀ f m', Signaling.call_onSignalingMessage f m'
               ∈ (Signaling.handleSignalingMessage s m).2 →
       m' = m ∧ Signaling.onSignalingMessage s = Some f
       ∧ (Signaling.type m = "offer" ∨ Signaling.type m = "answer"
          ∨ Signaling.type m = "ice_candidate"))
  ∧ (∀ f x, Signaling.call_onRoomCreated f x
              ∈ (Signaling.handleSignalingMessage s m).2 →
       x = Signaling.roomName m ∧ Signaling.onRoomCreated s = Some f
       ∧ Signaling.type m = "room_created")
  ∧ (∀ f x, Signaling.call_onRoomJoined f x
              ∈ (Signaling.handleSignalingMessage s m).2 →
       x = Signaling.participants m ∧ Signaling.onRoomJoined s = Some f
       ∧ Signaling.type m = "room_joined")
  ∧ (∀ f x, Signaling.call_onParticipantJoined f x
              ∈ (Signaling.handleSignalingMessage s m).2 →
       x = Signaling.participant_ m ∧ Signaling.onParticipantJoined s = Some f
       ∧ Signaling.type m = "participant_joined")
  ∧ (∀ f x, Signaling.call_onParticipantLeft f x
              ∈ (Signaling.handleSignalingMessage s m).2 →
       x = Signaling.participantId m ∧ Signaling.onParticipantLeft s = Some f
       ∧ Signaling.type m = "participant_left").
Proof.
  split_and!.
  - unfold Signaling.handleSignalingMessage, Signaling.call_if_set.
    repeat case_bool_decide; simpl; repeat case_match; simpl; lia.
  - intros Hin. unfold Signaling.handleSignalingMessage.
    repeat case_bool_decide; try done.
    exfalso. repeat (apply elem_of_cons in Hin as [?|Hin]; [done|]).
    by apply elem_of_nil in Hin.
  - apply handleSignalingMessage_unknown.
  - unfold Signaling.handleSignalingMessage.
    by repeat case_bool_decide.
  - intros f m'. unfold Signaling.handleSignalingMessage, Signaling.call_if_set.
    repeat case_bool_decide; simpl; repeat case_match; simpl;
      rewrite ?elem_of_nil, ?list_elem_of_singleton; try done;
      intros [= <- <-]; tauto.
  - intros f x. unfold Signaling.handleSignalingMessage, Signaling.call_if_set.
    repeat case_bool_decide; simpl; repeat case_match; simpl;
      rewrite ?elem_of_nil, ?list_elem_of_singleton; try done;
      by intros [= <- <-].
  - intros f x. unfold Signaling.handleSignalingMessage, Signaling.call_if_set.
    repeat case_bool_decide; simpl; repeat case_match; simpl;
      rewrite ?elem_of_nil, ?list_elem_of_singleton; try done;
      by intros [= <- <-].
  - intros f x. unfold Signaling.handleSignalingMessage, Signaling.call_if_set.
    repeat case_bool_decide; simpl; repeat case_match; simpl;
      rewrite ?elem_of_nil, ?list_elem_of_singleton; try done;
      by intros [= <- <-].
  - intros f x. unfold Signaling.handleSignalingMessage, Signaling.call_if_set.
    repeat case_bool_decide; simpl; repeat case_match; simpl;
      rewrite ?elem_of_nil, ?list_elem_of_singleton; try done;
      by intros [= <- <-].
Qed.

Lemma handleSignalingMessage_routes_once_witness :
  Signaling.handleSignalingMessage (alice_service Signaling.OPEN)
    (Signaling.mkMessage "join" None None None None None (Some "room")
       (Some "bob") None None None)
  = (Signaling.console_write
       (Signaling.console_write (alice_service Signaling.OPEN)
          "Received signaling message:")
       "Unknown message type:", []).
Proof.
  apply (proj1 (proj2 (proj2
    (handleSignalingMessage_routes_once (alice_service Signaling.OPEN)
       (Signaling.mkMessage "join" None None None None None (Some "room")
          (Some "bob") None None None))))).
  intros Hin. apply elem_of_cons in Hin as [?|Hin]; [discriminate|].
  apply elem_of_cons in Hin as [?|Hin]; [discriminate|].
  apply elem_of_cons in Hin as [?|Hin]; [discriminate|].
  apply elem_of_cons in Hin as [?|Hin]; [discriminate|].
  apply elem_of_cons in Hin as [?|Hin]; [discriminate|].
  apply elem_of_cons in Hin as [?|Hin]; [discriminate|].
  apply elem_of_cons in Hin as [?|Hin]; [discriminate|].
  by apply elem_of_nil in Hin.
Defined.

(** X10: on an open socket, messages are handed to the socket in the order
    of the calls of [sendSignalingMessage], after those sent before; none
    is dropped, and nothing is logged. *)
Theorem send_preserves_order (s : Signaling.SignalingService)
    (ws : Signaling.WebSocket) (ms : list Signaling.message) :
  Signaling.socket s = Some ws →
  Signaling.readyState ws = Signaling.OPEN →
  foldl (λ s m, (Signaling.sendSignalingMessage s m).2) s ms
  = Signaling.with_socket s
      (Some (Signaling.mkWebSocket Signaling.OPEN (Signaling.sent ws ++ ms))).
Proof.
  revert s ws. induction ms as [|m ms IH]; intros s ws Hs Hopen; simpl.
  - rewrite app_nil_r. destruct s as [sock ? ? ? ? ? ? ? ? ? ?].
    simpl in *. subst sock. by destruct ws; simplify_eq/=.
  - unfold Signaling.sendSignalingMessage at 2. rewrite Hs.
    rewrite bool_decide_eq_true_2 by done. cbn [snd].
    rewrite (IH _ (Signaling.mkWebSocket (Signaling.readyState ws)
                     (Signaling.sent ws ++ [m]))); [|done|done].
    simpl. by rewrite <- app_assoc.
Qed.

Lemma send_preserves_order_witness :
  Signaling.socket
    (foldl (λ s m, (Signaling.sendSignalingMessage s m).2)
       (alice_service Signaling.OPEN) [offer_to "bob"; offer_to "carol"])
  = Some (Signaling.mkWebSocket Signaling.OPEN
            [offer_to "bob"; offer_to "carol"]).
Proof.
  rewrite (send_preserves_order (alice_service Signaling.OPEN)
             (Signaling.mkWebSocket Signaling.OPEN [])
             [offer_to "bob"; offer_to "carol"] eq_refl eq_refl).
  reflexivity.
Defined.

(** X11: on an open socket, [sendOffer], [sendAnswer] and
    [sendIceCandidate] each hand one message to the socket and change
    nothing else; the message has the type of the call, [from] the local
    user name, [to] the given peer and the payload under [offer], [answer]
    or [candidate]; the meeting's handler of the addressed peer takes the
    message up as an offer, an answer or a candidate, and the handler of
    any other user drops it. *)
Theorem sent_message_reaches_addressee (s : Signaling.SignalingService)
    (ws : Signaling.WebSocket) (peerId : string)
    (d : RTCSessionDescription) (c : RTCIceCandidate) :
  Signaling.socket s = Some ws →
  Signaling.readyState ws = Signaling.OPEN →
  SignalingService.sendOffer s peerId d
  = Signaling.with_socket s
      (Some (Signaling.mkWebSocket Signaling.OPEN
               (Signaling.sent ws
                ++ [Signaling.mkMessage "offer" (Signaling.svc_username s)
                      (Some peerId) (Some d) None None None None None None
                      None])))
  ∧ SignalingService.sendAnswer s peerId d
    = Signaling.with_socket s
        (Some (Signaling.mkWebSocket Signaling.OPEN
                 (Signaling.sent ws
                  ++ [Signaling.mkMessage "answer" (Signaling.svc_username s)
                        (Some peerId) None (Some d) None None None None None
                        None])))
  ∧ SignalingService.sendIceCandidate s peerId c
    = Signaling.with_socket s
        (Some (Signaling.mkWebSocket Signaling.OPEN
                 (Signaling.sent ws
                  ++ [Signaling.mkMessage "ice_candidate"
                        (Signaling.svc_username s) (Some peerId) None None
                        (Some c) None None None None None])))
  ∧ SignalingService.offer_message s peerId d
    = Signaling.mkMessage "offer" (Signaling.svc_username s) (Some peerId)
        (Some d) None None None None None None None
  ∧ SignalingService.answer_message s peerId d
    = Signaling.mkMessage "answer" (Signaling.svc_username s) (Some peerId)
        None (Some d) None None None None None None
  ∧ SignalingService.candidate_message s peerId c
    = Signaling.mkMessage "ice_candidate" (Signaling.svc_username s)
        (Some peerId) None None (Some c) None None None None None
  ∧ Meeting.handleSignalingMessage peerId
      (SignalingService.offer_message s peerId d)
    = [Meeting.handleOffer (SignalingService.offer_message s peerId d)]
  ∧ Meeting.handleSignalingMessage peerId
      (SignalingService.answer_message s peerId d)
    = [Meeting.handleAnswer (SignalingService.answer_message s peerId d)]
  ∧ Meeting.handleSignalingMessage peerId
      (SignalingService.candidate_message s peerId c)
    = [Meeting.handleRemoteIceCandidate
         (SignalingService.candidate_message s peerId c)]
  ∧ (∀ other, other ≠ peerId →
       Meeting.handleSignalingMessage other
         (SignalingService.offer_message s peerId d) = []
       ∧ Meeting.handleSignalingMessage other
           (SignalingService.answer_message s peerId d) = []
       ∧ Meeting.handleSignalingMessage other
           (SignalingService.candidate_message s peerId c) = []).
Proof.
  intros Hs Hopen.
  unfold SignalingService.sendOffer, SignalingService.sendAnswer,
    SignalingService.sendIceCandidate, Signaling.sendSignalingMessage.
  rewrite Hs, !bool_decide_eq_true_2 by done. simpl. rewrite Hopen.
  unfold Meeting.handleSignalingMessage. simpl.
  rewrite !bool_decide_eq_true_2 by done. simpl.
  split_and!; try done.
  intros other Hother.
  rewrite !bool_decide_eq_false_2 by congruence. done.
Qed.

Lemma sent_message_reaches_addressee_witness :
  SignalingService.sendOffer (alice_service Signaling.OPEN) "bob"
    (mkDescription "offer" "v=0")
  = Signaling.with_socket (alice_service Signaling.OPEN)
      (Some (Signaling.mkWebSocket Signaling.OPEN
               [Signaling.mkMessage "offer" (Some "alice") (Some "bob")
                  (Some (mkDescription "offer" "v=0")) None None None None
                  None None None])).
Proof.
  exact (proj1 (sent_message_reaches_addressee (alice_service Signaling.OPEN)
    (Signaling.mkWebSocket Signaling.OPEN []) "bob"
    (mkDescription "offer" "v=0") host_candidate eq_refl eq_refl)).
Defined.

(** X12: after [close] the service has no socket; a second [close] changes
    nothing; and every message sent afterwards is dropped, with the
    console line as the only effect. *)
Theorem close_then_send (s : Signaling.SignalingService)
    (m : Signaling.message) :
  Signaling.socket (SignalingService.close s) = None
  ∧ SignalingService.close (SignalingService.close s)
    = SignalingService.close s
  ∧ Signaling.pendingCandidates (SignalingService.close s)
    = Signaling.pendingCandidates s
  ∧ Signaling.sendSignalingMessage (SignalingService.close s) m
    = (Normal (),
       Signaling.console_write (SignalingService.close s)
         "WebSocket is not open")
  ∧ Signaling.socket
      (Signaling.sendSignalingMessage (SignalingService.close s) m).2 = None.
Proof.
  unfold SignalingService.close, Signaling.sendSignalingMessage.
  destruct (Signaling.socket s) eqn:Hs; simpl; rewrite ?Hs; done.
Qed.

(** X13: [setCallbacks] replaces exactly the callbacks its argument gives
    and keeps the others, for each of the six callbacks; so a callback that
    is set stays set, whatever the argument; the socket, the room and user
    names, the pending candidates and the console are as before; an
    argument without callbacks changes nothing, and giving the same
    argument twice is as giving it once. *)
Theorem setCallbacks_never_unsets (s : Signaling.SignalingService)
    (c : SignalingService.callbacks) :
  (∀ registered given,
     (registered, given) ∈
       [(Signaling.onSignalingMessage, SignalingService.cb_onSignalingMessage);
        (Signaling.onRoomCreated, SignalingService.cb_onRoomCreated);
        (Signaling.onRoomJoined, SignalingService.cb_onRoomJoined);
        (Signaling.onRoomError, SignalingService.cb_onRoomError);
        (Signaling.onParticipantJoined,
         SignalingService.cb_onParticipantJoined);
        (Signaling.onParticipantLeft, SignalingService.cb_onParticipantLeft)] →
     (∀ f, given c = Some f →
        registered (SignalingService.setCallbacks s c) = Some f)
     ∧ (given c = None →
        registered (SignalingService.setCallbacks s c) = registered s)
     ∧ (is_Some (registered s) →
        is_Some (registered (SignalingService.setCallbacks s c))))
  ∧ SignalingService.setCallbacks s
      (SignalingService.mkCallbacks None None None None None None) = s
  ∧ SignalingService.setCallbacks (SignalingService.setCallbacks s c) c
    = SignalingService.setCallbacks s c
  ∧ Signaling.socket (SignalingService.setCallbacks s c) = Signaling.socket s
  ∧ Signaling.svc_roomName (SignalingService.setCallbacks s c)
    = Signaling.svc_roomName s
  ∧ Signaling.svc_username (SignalingService.setCallbacks s c)
    = Signaling.svc_username s
  ∧ Signaling.pendingCandidates (SignalingService.setCallbacks s c)
    = Signaling.pendingCandidates s
  ∧ Signaling.console (SignalingService.setCallbacks s c)
    = Signaling.console s.
Proof.
  assert (∀ given current : option Signaling.callback,
            (∀ f, given = Some f →
               SignalingService.assign_if_set given current = Some f)
            ∧ (given = None →
               SignalingService.assign_if_set given current = current)
            ∧ (is_Some current →
               is_Some (SignalingService.assign_if_set given current)))
    as Hassign.
  { intros given current. split_and!.
    - by intros f ->.
    - by intros ->.
    - intros [f ->]. by destruct given. }
  split_and!; try done.
  - intros registered given Hin.
    repeat (apply elem_of_cons in Hin as [[= -> ->]|Hin]; [apply Hassign|]).
    by apply elem_of_nil in Hin.
  - by destruct s.
  - unfold SignalingService.setCallbacks, SignalingService.assign_if_set.
    simpl. f_equal; by case_match.
Qed.

Lemma setCallbacks_never_unsets_witness :
  is_Some (Signaling.onSignalingMessage
             (SignalingService.setCallbacks (alice_service Signaling.OPEN)
                (SignalingService.mkCallbacks None None None (Some "alert")
                   None None))).
Proof.
  apply (proj1 (setCallbacks_never_unsets (alice_service Signaling.OPEN)
    (SignalingService.mkCallbacks None None None (Some "alert") None None))
    Signaling.onSignalingMessage SignalingService.cb_onSignalingMessage).
  - by left.
  - by eexists.
Defined.

(** X14: the queues of pending candidates are per peer: storing or
    clearing for one peer leaves the queue of every other peer as it is,
    and a peer without a queue has no pending candidate. *)
Theorem pending_candidates_per_peer (s : Signaling.SignalingService)
    (p q : string) (c : RTCIceCandidate) :
  p ≠ q →
  Signaling.getPendingCandidates (Signaling.storePendingCandidate s p c) q
  = Signaling.getPendingCandidates s q
  ∧ Signaling.getPendingCandidates (Signaling.clearPendingCandidates s p) q
    = Signaling.getPendingCandidates s q
  ∧ (Signaling.pendingCandidates s !! p = None →
     Signaling.getPendingCandidates s p = [])
  ∧ Signaling.socket (Signaling.storePendingCandidate s p c)
    = Signaling.socket s.
Proof.
  intros Hpq.
  unfold Signaling.getPendingCandidates, Signaling.storePendingCandidate,
    Signaling.clearPendingCandidates. simpl.
  split_and!; try done.
  - rewrite lookup_alter_ne by done.
    case_bool_decide; [done|]. by rewrite lookup_insert_ne.
  - by rewrite lookup_delete_ne.
  - by intros ->.
Qed.

Lemma pending_candidates_per_peer_witness :
  Signaling.getPendingCandidates
    (Signaling.clearPendingCandidates
       (Signaling.storePendingCandidate
          (Signaling.storePendingCandidate (alice_service Signaling.OPEN)
             "carol" relay_candidate) "bob" host_candidate) "bob") "carol"
  = [relay_candidate].
Proof.
  assert ("bob" ≠ "carol") as Hne by discriminate.
  rewrite (proj1 (proj2 (pending_candidates_per_peer
    (Signaling.storePendingCandidate
       (Signaling.storePendingCandidate (alice_service Signaling.OPEN)
          "carol" relay_candidate) "bob" host_candidate)
    "bob" "carol" host_candidate Hne))).
  rewrite (proj1 (pending_candidates_per_peer
    (Signaling.storePendingCandidate (alice_service Signaling.OPEN)
       "carol" relay_candidate) "bob" "carol" host_candidate Hne)).
  reflexivity.
Defined.

(** X15: what the signaling service hands to [onSignalingMessage] never
    reaches the default case of the meeting's handler: for such a message
    the handler does nothing, when it is for another user, or takes it up
    as the offer, answer or candidate it is. *)
Theorem dispatched_message_is_known (s : Signaling.SignalingService)
    (m m' : Signaling.message) (f : string) (username : string) :
  Signaling.call_onSignalingMessage f m'
    ∈ (Signaling.handleSignalingMessage s m).2 →
  Meeting.handleSignalingMessage username m' = []
  ∨ Meeting.handleSignalingMessage username m' = [Meeting.handleOffer m']
  ∨ Meeting.handleSignalingMessage username m' = [Meeting.handleAnswer m']
  ∨ Meeting.handleSignalingMessage username m'
    = [Meeting.handleRemoteIceCandidate m'].
Proof.
  intros Hin.
  assert (m' = m ∧ (Signaling.type m = "offer" ∨ Signaling.type m = "answer"
                    ∨ Signaling.type m = "ice_candidate")) as [-> Hkind].
  { revert Hin.
    unfold Signaling.handleSignalingMessage, Signaling.call_if_set.
    repeat case_bool_decide; simpl; repeat case_match; simpl;
      rewrite ?elem_of_nil, ?list_elem_of_singleton; try done;
      intros [= <- <-]; tauto. }
  unfold Meeting.handleSignalingMessage.
  destruct (bool_decide (Signaling.to m = Some username)); simpl; [|by left].
  destruct Hkind as [Hk|[Hk|Hk]]; rewrite Hk; simpl; tauto.
Qed.

Lemma dispatched_message_is_known_witness :
  Meeting.handleSignalingMessage "alice" (offer_to "alice") = []
  ∨ Meeting.handleSignalingMessage "alice" (offer_to "alice")
    = [Meeting.handleOffer (offer_to "alice")]
  ∨ Meeting.handleSignalingMessage "alice" (offer_to "alice")
    = [Meeting.handleAnswer (offer_to "alice")]
  ∨ Meeting.handleSignalingMessage "alice" (offer_to "alice")
    = [Meeting.handleRemoteIceCandidate (offer_to "alice")].
Proof.
  apply (dispatched_message_is_known (alice_service Signaling.OPEN)
           (offer_to "alice") (offer_to "alice") "handleSignalingMessage").
  by left.
Defined.

(** X16: [initializeWebSocket] stores the room and user names; a message
    sent before the socket is open is dropped; when the socket opens, the
    join message with these names is the first message sent. *)
Theorem join_sent_when_socket_opens (s : Signaling.SignalingService)
    (room user : string) (m : Signaling.message) :
  Signaling.socket
    (Signaling.sendSignalingMessage
       (SignalingService.initializeWebSocket room user s) m).2
  = Some (Signaling.mkWebSocket Signaling.CONNECTING [])
  ∧ Signaling.socket
      (SignalingService.socket_opens
         (SignalingService.initializeWebSocket room user s))
    = Some (Signaling.mkWebSocket Signaling.OPEN
              [Signaling.mkMessage "join" None None None None None
                 (Some room) (Some user) None None None])
  ∧ Signaling.svc_username
      (SignalingService.socket_opens
         (SignalingService.initializeWebSocket room user s)) = Some user
  ∧ Signaling.pendingCandidates
      (SignalingService.socket_opens
         (SignalingService.initializeWebSocket room user s))
    = Signaling.pendingCandidates s.
Proof. done. Qed.

(** ** The registry of connections *)

Section RegistryInvariant.
Context `{Platform} `{PlatformAnswer}.
Import WebRTC WebRTCService.

Lemma get_connection_Some st p h pc :
  get_connection st p = Some (h, pc) ↔
  peerConnections (service st) !! p = Some h ∧ objects st !! h = Some pc.
Proof.
  unfold get_connection.
  destruct (peerConnections (service st) !! p) as [h'|].
  - destruct (objects st !! h') as [pc'|] eqn:Ho.
    + split; [by intros [= <- <-]|]. intros [[= <-] Hpc]. congruence.
    + split; [done|]. intros [[= <-] Hpc]. congruence.
  - split; [done|]. by intros [? _].
Qed.

Lemma get_connection_well_formed st p h :
  well_formed st → peerConnections (service st) !! p = Some h →
  ∃ pc, get_connection st p = Some (h, pc).
Proof.
  intros [Hobj _] Hp. destruct (Hobj p h Hp) as [pc Hpc].
  exists pc. by apply get_connection_Some.
Qed.

(** What [closeConnection] does to a registered connection. *)
Lemma closeConnection_registered st p h pc :
  get_connection st p = Some (h, pc) →
  peerConnections (service (closeConnection p st))
  = delete p (peerConnections (service st))
  ∧ objects (closeConnection p st) = <[h := native_close pc]> (objects st)
  ∧ qualityMonitors (service (closeConnection p st)) !! p = None
  ∧ stateManagers (service (closeConnection p st)) !! p = None.
Proof.
  intros Hget. unfold closeConnection. rewrite Hget.
  unfold stopStateMonitoring, stopQualityMonitoring.
  destruct (qualityMonitors (service st) !! p) eqn:Hq; simpl;
    destruct (stateManagers (service st) !! p) eqn:Hm; simpl;
    rewrite ?lookup_delete_eq; done.
Qed.

(** The shapes of the state after an operation. *)
Lemma run_operation_cases st o :
  run_operation st o = st
  ∨ (∃ h pc pc', get_connection st (operation_peer o) = Some (h, pc)
       ∧ run_operation st o = mkState (service st) (<[h := pc']> (objects st)))
  ∨ (∃ cfg, run_operation st o
            = (createPeerConnection (operation_peer o) cfg st).2)
  ∨ (∃ h pc, get_connection st (operation_peer o) = Some (h, pc)
       ∧ run_operation st o = closeConnection (operation_peer o) st).
Proof.
  destruct o as [p cfg|p options|p options|p d|p c|p]; simpl.
  - right; right; left. by exists cfg.
  - unfold createOffer.
    destruct (get_connection st p) as [[h pc]|] eqn:Hget; [|by left].
    right; left. exists h, pc.
    destruct (pc_createOffer pc options) as [[[offer|e] pc1] attempts].
    + destruct (native_setLocalDescription pc1 offer) as [[?|?] pc2];
        by exists pc2.
    + by exists pc1.
  - unfold createAnswer.
    destruct (get_connection st p) as [[h pc]|] eqn:Hget; [|by left].
    right; left. exists h, pc.
    destruct (native_createAnswer pc options) as [[answer|e] pc1].
    + destruct (native_setLocalDescription pc1 answer) as [[?|?] pc2];
        by exists pc2.
    + by exists pc1.
  - unfold setRemoteDescription.
    destruct (get_connection st p) as [[h pc]|] eqn:Hget; [|by left].
    right; left. exists h, pc.
    destruct (native_setRemoteDescription pc d) as [[?|?] pc1]; by exists pc1.
  - unfold addIceCandidate.
    destruct (get_connection st p) as [[h pc]|] eqn:Hget; [|by left].
    right; left. exists h, pc.
    destruct (native_addIceCandidate pc c) as [[?|?] pc1]; by exists pc1.
  - destruct (get_connection st p) as [[h pc]|] eqn:Hget.
    + right; right; right. by exists h, pc.
    + left. unfold closeConnection. by rewrite Hget.
Qed.

Lemma well_formed_update st h pc pc' :
  well_formed st → objects st !! h = Some pc →
  well_formed (mkState (service st) (<[h := pc']> (objects st))).
Proof.
  intros [Hobj Hinj] Hh. split; simpl; [|done].
  intros p h' Hp. apply lookup_insert_is_Some'. right. by eapply Hobj.
Qed.

Lemma well_formed_create st p cfg :
  well_formed st → well_formed (createPeerConnection p cfg st).2.
Proof.
  intros [Hobj Hinj]. unfold createPeerConnection. simpl.
  set (h := fresh (dom (objects st))).
  assert (∀ q, peerConnections (service st) !! q ≠ Some h) as Hfresh.
  { intros q Hq. apply Hobj in Hq. apply elem_of_dom in Hq.
    by apply (is_fresh (dom (objects st))). }
  split; simpl.
  - intros q h' Hq. apply lookup_insert_is_Some'.
    destruct (decide (p = q)) as [->|Hne].
    + rewrite lookup_insert_eq in Hq. left. congruence.
    + rewrite lookup_insert_ne in Hq by done. right. by eapply Hobj.
  - intros q1 q2 h' Hq1 Hq2.
    destruct (decide (q1 = p)) as [->|Hne1], (decide (q2 = p)) as [->|Hne2];
      [done|..].
    + rewrite lookup_insert_eq in Hq1. rewrite lookup_insert_ne in Hq2 by done.
      simplify_eq. by destruct (Hfresh q2).
    + rewrite lookup_insert_eq in Hq2. rewrite lookup_insert_ne in Hq1 by done.
      simplify_eq. by destruct (Hfresh q1).
    + rewrite lookup_insert_ne in Hq1, Hq2 by done. by eapply Hinj.
Qed.

Lemma well_formed_close st p :
  well_formed st → well_formed (closeConnection p st).
Proof.
  intros Hwf. destruct (get_connection st p) as [[h pc]|] eqn:Hget.
  - destruct (closeConnection_registered st p h pc Hget) as (Hreg & Hobjs & _).
    destruct Hwf as [Hobj Hinj]. split.
    + intros q h' Hq. rewrite Hreg in Hq. rewrite Hobjs.
      apply lookup_delete_Some in Hq as [_ Hq].
      apply lookup_insert_is_Some'. right. by eapply Hobj.
    + intros q1 q2 h' Hq1 Hq2. rewrite Hreg in Hq1, Hq2.
      apply lookup_delete_Some in Hq1 as [_ Hq1].
      apply lookup_delete_Some in Hq2 as [_ Hq2]. by eapply Hinj.
  - unfold closeConnection. by rewrite Hget.
Qed.

Lemma well_formed_run_operation st o :
  well_formed st → well_formed (run_operation st o).
Proof.
  intros Hwf.
  destruct (run_operation_cases st o)
    as [-> | [(h & pc & pc' & Hget & ->) | [(cfg & ->) | (h & pc & Hget & ->)]]].
  - done.
  - apply get_connection_Some in Hget as [_ Hh].
    by eapply well_formed_update.
  - by apply well_formed_create.
  - by apply well_formed_close.
Qed.

(** [closeConnection] for one peer leaves the other peers as they are. *)
Lemma closeConnection_leaves_other_peers st p q :
  well_formed st → q ≠ p →
  get_connection (closeConnection p st) q = get_connection st q.
Proof.
  intros Hwf Hq. destruct (get_connection st p) as [[h pc]|] eqn:Hget.
  - destruct (closeConnection_registered st p h pc Hget) as (Hreg & Hobjs & _).
    unfold get_connection. rewrite Hreg, Hobjs.
    rewrite lookup_delete_ne by done.
    destruct (peerConnections (service st) !! q) as [hq|] eqn:Hhq; [|done].
    rewrite lookup_insert_ne; [done|]. intros ->.
    apply get_connection_Some in Hget as [Hp _].
    destruct Hwf as [_ Hinj]. by destruct Hq; eapply Hinj.
  - unfold closeConnection. by rewrite Hget.
Qed.

Lemma well_formed_initial : well_formed initial_state.
Proof. split; intros ? ?; simpl; by rewrite ?lookup_empty. Qed.

(** X17: whatever sequence of operations the service has gone through
    since it was constructed, every entry of its registry refers to a
    connection object, and no two peers share one. *)
Theorem registry_well_formed (ops : list operation) :
  well_formed (run_operations initial_state ops).
Proof.
  pose proof well_formed_initial as Hinit.
  revert Hinit. unfold run_operations. generalize initial_state.
  induction ops as [|o ops IH]; intros st Hwf; simpl; [done|].
  apply IH. by apply well_formed_run_operation.
Qed.

(** X18: in a well-formed state, an operation for one peer leaves the
    entry and the connection of every other peer as they are. *)
Theorem operation_leaves_other_peers (st : state) (o : operation)
    (q : string) :
  well_formed st → q ≠ operation_peer o →
  get_connection (run_operation st o) q = get_connection st q.
Proof.
  intros Hwf Hq.
  assert (∀ h pc, get_connection st (operation_peer o) = Some (h, pc) →
                  peerConnections (service st) !! q ≠ Some h) as Hother.
  { intros h pc Hget Hqh. apply get_connection_Some in Hget as [Hp _].
    destruct Hwf as [_ Hinj]. by destruct Hq; eapply Hinj. }
  destruct (run_operation_cases st o)
    as [-> | [(h & pc & pc' & Hget & ->) | [(cfg & ->) | (h & pc & Hget & ->)]]].
  - done.
  - unfold get_connection. simpl.
    destruct (peerConnections (service st) !! q) as [hq|] eqn:Hhq; [|done].
    rewrite lookup_insert_ne; [done|]. intros ->. by eapply Hother.
  - unfold get_connection, createPeerConnection. simpl.
    rewrite lookup_insert_ne by done.
    destruct (peerConnections (service st) !! q) as [hq|] eqn:Hhq; [|done].
    rewrite lookup_insert_ne; [done|]. intros Heq.
    destruct Hwf as [Hobj _]. apply Hobj, elem_of_dom in Hhq.
    rewrite <- Heq in Hhq. by apply (is_fresh (dom (objects st))).
  - destruct (closeConnection_registered st _ h pc Hget) as (Hreg & Hobjs & _).
    unfold get_connection. rewrite Hreg, Hobjs.
    rewrite lookup_delete_ne by done.
    destruct (peerConnections (service st) !! q) as [hq|] eqn:Hhq; [|done].
    rewrite lookup_insert_ne; [done|]. intros ->. by eapply Hother.
Qed.

(** X19: [closeConnection] is idempotent; afterwards the peer has no
    connection, its quality monitor and state manager are dropped when it
    had a connection, and an offer for the peer fails with the "No peer
    connection found" error without an attempt on the browser. *)
Theorem closeConnection_idempotent (st : state) (p : string)
    (options : gmap string bool) :
  closeConnection p (closeConnection p st) = closeConnection p st
  ∧ get_connection (closeConnection p st) p = None
  ∧ (is_Some (get_connection st p) →
     peerConnections (service (closeConnection p st)) !! p = None
     ∧ qualityMonitors (service (closeConnection p st)) !! p = None
     ∧ stateManagers (service (closeConnection p st)) !! p = None)
  ∧ createOffer p options (closeConnection p st)
    = (Throw (no_peer_error p), closeConnection p st, []).
Proof.
  assert (get_connection (closeConnection p st) p = None) as Hnone.
  { destruct (get_connection st p) as [[h pc]|] eqn:Hget.
    - destruct (closeConnection_registered st p h pc Hget) as (Hreg & _).
      unfold get_connection. by rewrite Hreg, lookup_delete_eq.
    - unfold closeConnection. by rewrite Hget. }
  split_and!.
  - unfold closeConnection at 1. by rewrite Hnone.
  - done.
  - intros [[h pc] Hget].
    destruct (closeConnection_registered st p h pc Hget) as (Hreg & _ & ? & ?).
    by rewrite Hreg, lookup_delete_eq.
  - unfold createOffer. by rewrite Hnone.
Qed.

(** X20: for a peer without a connection, [createOffer], [createAnswer]
    and [setRemoteDescription] fail with the "No peer connection found"
    error, change nothing and make no attempt on the browser, and
    [closeConnection] does nothing. *)
Theorem operations_without_connection (st : state) (p : string)
    (options : gmap string bool) (d : RTCSessionDescription) :
  get_connection st p = None →
  createOffer p options st = (Throw (no_peer_error p), st, [])
  ∧ createAnswer p options st = (Throw (no_peer_error p), st)
  ∧ setRemoteDescription p d st = (Throw (no_peer_error p), st)
  ∧ closeConnection p st = st.
Proof.
  intros Hnone.
  unfold createOffer, createAnswer, setRemoteDescription, closeConnection.
  by rewrite Hnone.
Qed.

(** The objects that no entry refers to are not touched by
    [closeAllConnections]. *)
Lemma closeAllConnections_registry order st :
  well_formed st →
  well_formed (closeAllConnections order st)
  ∧ (∀ q, peerConnections (service (closeAllConnections order st)) !! q
          = if decide (q ∈ order) then None
            else peerConnections (service st) !! q)
  ∧ (∀ h, (∀ q, q ∈ order → peerConnections (service st) !! q ≠ Some h) →
          objects (closeAllConnections order st) !! h = objects st !! h).
Proof.
  revert st. induction order as [|p order IH]; intros st Hwf.
  - split_and!; [done| |done]. intros q. by rewrite decide_False by apply not_elem_of_nil.
  - unfold closeAllConnections in *. cbn [foldl].
    pose proof (well_formed_close st p Hwf) as Hwf1.
    destruct (IH _ Hwf1) as (Hwf2 & Hreg & Hobjs).
    assert (∀ q, peerConnections (service (closeConnection p st)) !! q
                 = if decide (q = p) then None
                   else peerConnections (service st) !! q) as Hstep.
    { intros q. destruct (get_connection st p) as [[h pc]|] eqn:Hget.
      - destruct (closeConnection_registered st p h pc Hget) as (-> & _).
        case_decide as Hq; [subst; by rewrite lookup_delete_eq|].
        by rewrite lookup_delete_ne.
      - unfold closeConnection. rewrite Hget. case_decide as Hq; [|done].
        subst q. destruct (peerConnections (service st) !! p) as [h|] eqn:Hp;
          [|done].
        destruct (get_connection_well_formed st p h Hwf Hp) as [pc Hpc].
        congruence. }
    split_and!; [done| |].
    + intros q. rewrite Hreg, Hstep.
      destruct (decide (q = p)) as [->|Hne].
      * rewrite (decide_True (P := p ∈ p :: order)) by (by left).
        by case_decide.
      * destruct (decide (q ∈ order)).
        -- by rewrite decide_True by (by right).
        -- by rewrite decide_False by (by apply not_elem_of_cons).
    + intros h Hh. rewrite Hobjs.
      * destruct (get_connection st p) as [[h' pc]|] eqn:Hget.
        -- destruct (closeConnection_registered st p h' pc Hget)
             as (_ & -> & _).
           rewrite lookup_insert_ne; [done|]. intros ->.
           apply get_connection_Some in Hget as [Hp _].
           by apply (Hh p); [by left|].
        -- unfold closeConnection. by rewrite Hget.
      * intros q Hq. rewrite Hstep. case_decide; [done|].
        apply Hh. by right.
Qed.

(** X21: in a well-formed state, [closeAllConnections], visiting the
    peers of the registry in whatever order, leaves the registry empty and
    has closed the connection of every peer; a connection object that no
    entry referred to is as before. *)
Theorem closeAllConnections_closes_all (order : list string) (st : state) :
  well_formed st →
  (∀ p, is_Some (peerConnections (service st) !! p) → p ∈ order) →
  peerConnections (service (closeAllConnections order st)) = ∅
  ∧ (∀ p h pc, p ∈ order → get_connection st p = Some (h, pc) →
       objects (closeAllConnections order st) !! h = Some (native_close pc))
  ∧ (∀ h, (∀ p, peerConnections (service st) !! p ≠ Some h) →
       objects (closeAllConnections order st) !! h = objects st !! h).
Proof.
  intros Hwf Hall. split_and!.
  - apply map_eq. intros q. rewrite lookup_empty.
    destruct (closeAllConnections_registry order st Hwf) as (_ & -> & _).
    case_decide as Hq; [done|].
    destruct (peerConnections (service st) !! q) eqn:Hp; [|done].
    destruct Hq. apply Hall. by rewrite Hp.
  - clear Hall. revert st Hwf.
    induction order as [|p0 order IH]; intros st Hwf p h pc Hin Hget.
    { by apply elem_of_nil in Hin. }
    unfold closeAllConnections in *. cbn [foldl].
    pose proof (well_formed_close st p0 Hwf) as Hwf1.
    destruct (decide (p = p0)) as [->|Hne].
    + destruct (closeConnection_registered st p0 h pc Hget)
        as (Hreg & Hobj1 & _).
      destruct (closeAllConnections_registry order _ Hwf1) as (_ & _ & ->).
      * rewrite Hobj1. apply lookup_insert_eq.
      * intros q _. rewrite Hreg. intros Hq.
        apply lookup_delete_Some in Hq as [Hqp Hq].
        apply get_connection_Some in Hget as [Hp _].
        destruct Hwf as [_ Hinj]. destruct Hqp. by eapply Hinj.
    + apply (IH _ Hwf1 p h pc); [by apply elem_of_cons in Hin as [?|?]|].
      rewrite <- Hget.
      apply (closeConnection_leaves_other_peers st p0 p Hwf Hne).
  - intros h Hh.
    destruct (closeAllConnections_registry order st Hwf) as (_ & _ & ->);
      [done|]. intros q _. apply Hh.
Qed.

End RegistryInvariant.

(** *** On the example browser *)

Lemma operation_leaves_other_peers_witness :
  WebRTC.get_connection
    (@WebRTCService.run_operation example_platform example_platform_answer
       (WebRTC.createPeerConnection "carol" None
          (WebRTC.createPeerConnection "bob" None WebRTC.initial_state).2).2
       (WebRTCService.op_closeConnection "bob")) "carol"
  = Some (1%nat,
          setupFallbackMechanism
            (new_RTCPeerConnection WebRTC.default_iceServers)).
Proof.
  assert ("carol" ≠ "bob") as Hne by discriminate.
  rewrite (@operation_leaves_other_peers example_platform
             example_platform_answer _ (WebRTCService.op_closeConnection "bob")
             "carol"
             (well_formed_create _ "carol" None
                (well_formed_create _ "bob" None well_formed_initial))
             Hne).
  reflexivity.
Defined.

Lemma operations_without_connection_witness :
  @WebRTCService.createAnswer example_platform example_platform_answer
    "bob" ∅ WebRTC.initial_state
  = (Throw "No peer connection found for peer bob", WebRTC.initial_state).
Proof.
  exact (proj1 (proj2 (@operations_without_connection example_platform
    example_platform_answer WebRTC.initial_state "bob" ∅
    (mkDescription "offer" "v=0") eq_refl))).
Defined.

Lemma closeAllConnections_closes_all_witness :
  WebRTC.peerConnections
    (WebRTC.service
       (@WebRTCService.closeAllConnections example_platform ["bob"; "carol"]
          (WebRTC.createPeerConnection "carol" None
             (WebRTC.createPeerConnection "bob" None
                WebRTC.initial_state).2).2)) = ∅.
Proof.
  apply (@closeAllConnections_closes_all example_platform).
  - exact (well_formed_create _ "carol" None
             (well_formed_create _ "bob" None well_formed_initial)).
  - intros p [h Hp]. simpl in Hp.
    apply lookup_insert_Some in Hp as [[<- _]|[_ Hp]]; [by right; left|].
    apply lookup_insert_Some in Hp as [[<- _]|[_ Hp]]; [by left|].
    by rewrite lookup_empty in Hp.
Defined.

(** X22: [setCallbacks] of the connection service replaces exactly the
    callbacks its argument gives and keeps the others, for each of the four
    callbacks; so a callback that is set stays set; the connections, the
    quality monitors and the state managers are as before; once
    [onIceCandidate] is given, a gathered candidate is handed to it, and
    as long as none was given nothing is handed on. *)
Theorem webrtc_setCallbacks_never_unsets (s : WebRTC.WebRTCService)
    (c : WebRTCService.callbacks) (peerId : string)
    (gathered : RTCIceCandidate) :
  (∀ registered given,
     (registered, given) ∈
       [(WebRTC.onConnectionStateChange,
         WebRTCService.cb_onConnectionStateChange);
        (WebRTC.onQualityChange, WebRTCService.cb_onQualityChange);
        (WebRTC.onIceCandidate, WebRTCService.cb_onIceCandidate);
        (WebRTC.onTrack, WebRTCService.cb_onTrack)] →
     (∀ f, given c = Some f →
        registered (WebRTCService.setCallbacks s c) = Some f)
     ∧ (given c = None →
        registered (WebRTCService.setCallbacks s c) = registered s)
     ∧ (is_Some (registered s) →
        is_Some (registered (WebRTCService.setCallbacks s c))))
  ∧ (∀ f, WebRTCService.cb_onIceCandidate c = Some f →
       WebRTC.onicecandidate (WebRTCService.setCallbacks s c) peerId
         (Some gathered)
       = [WebRTC.call_onIceCandidate f peerId (Some gathered)])
  ∧ (WebRTC.onIceCandidate s = None →
     WebRTCService.cb_onIceCandidate c = None →
     WebRTC.onicecandidate (WebRTCService.setCallbacks s c) peerId
       (Some gathered) = [])
  ∧ WebRTC.peerConnections (WebRTCService.setCallbacks s c)
    = WebRTC.peerConnections s
  ∧ WebRTC.qualityMonitors (WebRTCService.setCallbacks s c)
    = WebRTC.qualityMonitors s
  ∧ WebRTC.stateManagers (WebRTCService.setCallbacks s c)
    = WebRTC.stateManagers s
  ∧ WebRTCService.setCallbacks s
      (WebRTCService.mkCallbacks None None None None) = s
  ∧ WebRTCService.setCallbacks (WebRTCService.setCallbacks s c) c
    = WebRTCService.setCallbacks s c.
Proof.
  assert (∀ given current : option WebRTC.callback,
            (∀ f, given = Some f →
               WebRTCService.assign_if_set given current = Some f)
            ∧ (given = None →
               WebRTCService.assign_if_set given current = current)
            ∧ (is_Some current →
               is_Some (WebRTCService.assign_if_set given current)))
    as Hassign.
  { intros given current. split_and!.
    - by intros f ->.
    - by intros ->.
    - intros [f ->]. by destruct given. }
  split_and!; try done.
  - intros registered given Hin.
    repeat (apply elem_of_cons in Hin as [[= -> ->]|Hin]; [apply Hassign|]).
    by apply elem_of_nil in Hin.
  - unfold WebRTC.onicecandidate. rewrite optimizeIceCandidates_singleton.
    simpl. by intros f ->.
  - unfold WebRTC.onicecandidate. rewrite optimizeIceCandidates_singleton.
    simpl. by intros -> ->.
  - by destruct s.
  - unfold WebRTCService.setCallbacks, WebRTCService.assign_if_set.
    simpl. f_equal; by case_match.
Qed.

Lemma webrtc_setCallbacks_never_unsets_witness :
  WebRTC.onicecandidate
    (WebRTCService.setCallbacks WebRTC.new_WebRTCService
       (WebRTCService.mkCallbacks None None (Some "handleIceCandidate") None))
    "bob" (Some host_candidate)
  = [WebRTC.call_onIceCandidate "handleIceCandidate" "bob"
       (Some host_candidate)].
Proof.
  exact (proj1 (proj2 (webrtc_setCallbacks_never_unsets
    WebRTC.new_WebRTCService
    (WebRTCService.mkCallbacks None None (Some "handleIceCandidate") None)
    "bob" host_candidate)) "handleIceCandidate" eq_refl).
Defined.

(** ** [optimizeMediaNegotiation] *)

(** What the body of the loop hands to [setParameters], by the encodings
    the sender reports. *)
Lemma sender_encodings_Some (s : Media.sender)
    (encs : list Media.encoding) :
  Media.sender_encodings s = Normal (Some encs) ↔
  Media.track_kind s = Some "video"
  ∧ ((Media.encodings s = None
      ∧ encs = [Media.mkEncoding (Some 1000000) None None;
                Media.mkEncoding (Some 500000) None None;
                Media.mkEncoding (Some 150000) None None])
     ∨ (∃ e, Media.encodings s = Some [e]
             ∧ encs = [Media.set_maxBitrate e 1000000;
                       Media.mkEncoding (Some 500000) None None;
                       Media.mkEncoding (Some 150000) None None])
     ∨ (∃ e e' rest, Media.encodings s = Some (e :: e' :: rest)
                     ∧ encs = Media.set_maxBitrate e 1000000 :: e' :: rest)).
Proof.
  unfold Media.sender_encodings.
  destruct (Media.track_kind s) as [k|]; [|split; [done|by intros [? _]]].
  case_bool_decide as Hk;
    [subst k|split; [done|intros [[= ?] _]; done]].
  destruct (Media.encodings s) as [[|e [|e' rest]]|]; simpl; split;
    try (intros [= <-]; split; [done|]);
    try (intros (_ & [[? ->]|[(e0 & ? & ->)|(e0 & e1 & r & ? & ->)]]);
         by simplify_eq).
  - done.
  - right; left. by exists e.
  - right; right. by exists e, e', rest.
  - by left.
Qed.

Lemma sender_encodings_fixpoint (s : Media.sender)
    (encs : list Media.encoding) :
  Media.sender_encodings s = Normal (Some encs) →
  (2 ≤ length encs)%nat
  ∧ Media.maxBitrate <$> head encs = Some (Some 1000000)
  ∧ Media.sender_encodings (Media.mkSender (Some "video") (Some encs))
    = Normal (Some encs).
Proof.
  intros (_ & [[_ ->]|[(e & _ & ->)|(e & e' & rest & _ & ->)]])
    %sender_encodings_Some;
    simpl; split_and!; done || lia.
Qed.

Lemma visit_senders_calls i senders :
  Forall (λ s, Media.track_kind s = Some "video" →
               Media.encodings s ≠ Some []) senders →
  (Media.visit_senders i senders).1 = Normal ()
  ∧ (∀ c, c ∈ (Media.visit_senders i senders).2 ↔
       ∃ j s encs, c = Media.setParameters (i + j) encs
                   ∧ senders !! j = Some s
                   ∧ Media.sender_encodings s = Normal (Some encs))
  ∧ Forall2 (λ c k, ∃ encs, c = Media.setParameters k encs)
      (Media.visit_senders i senders).2
      (filter (λ p, Media.track_kind p.2 = Some "video")
         (imap (λ j s, ((i + j)%nat, s)) senders)).*1.
Proof.
  intros Hall. revert i.
  induction Hall as [|s senders Hs _ IH]; intros i.
  { simpl. split_and!; [done| |constructor].
    intros c. split; [by intros ?%elem_of_nil|].
    by intros (j & s & encs & _ & ? & _). }
  destruct (IH (S i)) as (Hr & Hcalls & Hidx).
  assert (imap (λ j s0, ((i + j)%nat, s0)) (s :: senders)
          = (i, s) :: imap (λ j s0, ((S i + j)%nat, s0)) senders) as Himap.
  { rewrite imap_cons. f_equal; [f_equal; lia|].
    apply imap_ext. intros j s0 _. simpl. f_equal. lia. }
  rewrite Himap, filter_cons. cbn [Media.visit_senders snd].
  destruct (Media.sender_encodings s) as [[encs|]|e] eqn:Hs0.
  - destruct (Media.visit_senders (S i) senders) as [r calls].
    simpl in *. subst r.
    pose proof (proj1 (sender_encodings_Some _ _) Hs0) as [Hk _].
    rewrite decide_True by done. split_and!; [done| |].
    + intros c. rewrite elem_of_cons, Hcalls. split.
      * intros [->|(j & s' & encs' & -> & Hj & Hs')].
        -- exists 0%nat, s, encs. split_and!; [f_equal; lia|done..].
        -- exists (S j), s', encs'. split_and!; [f_equal; lia|exact Hj|done].
      * intros ([|j] & s' & encs' & -> & Hj & Hs'); simpl in Hj.
        -- left. simplify_eq. f_equal; [lia|congruence].
        -- right. exists j, s', encs'. split_and!; [f_equal; lia|done..].
    + simpl. constructor; [by exists encs|done].
  - assert (Media.track_kind s ≠ Some "video") as Hk.
    { intros Hk. unfold Media.sender_encodings in Hs0. rewrite Hk in Hs0.
      simpl in Hs0. specialize (Hs Hk).
      destruct (Media.encodings s) as [[|e0 [|e1 rest]]|]; simpl in Hs0;
        done. }
    rewrite decide_False by done. split_and!; [done| |done].
    intros c. rewrite Hcalls. split.
    + intros (j & s' & encs' & -> & Hj & Hs').
      exists (S j), s', encs'. split_and!; [f_equal; lia|exact Hj|done].
    + intros ([|j] & s' & encs' & -> & Hj & Hs'); simpl in Hj.
      * injection Hj as <-. congruence.
      * exists j, s', encs'. split_and!; [f_equal; lia|done..].
  - exfalso. unfold Media.sender_encodings in Hs0.
    destruct (Media.track_kind s) as [k|] eqn:Hk; [|done].
    case_bool_decide; [subst k|done]. specialize (Hs eq_refl).
    destruct (Media.encodings s) as [[|e0 [|e1 rest]]|]; simpl in Hs0; done.
Qed.

Lemma visit_tracks_calls i tracks :
  Media.visit_tracks i tracks
  = Media.applyConstraints
    <$> (filter (λ p, Media.has_width p.2 && Media.has_height p.2 = true)
           (imap (λ j t, ((i + j)%nat, t)) tracks)).*1.
Proof.
  revert i. induction tracks as [|t tracks IH]; intros i; [done|].
  assert (imap (λ j t0, ((i + j)%nat, t0)) (t :: tracks)
          = (i, t) :: imap (λ j t0, ((S i + j)%nat, t0)) tracks) as ->.
  { rewrite imap_cons. f_equal; [f_equal; lia|].
    apply imap_ext. intros j t0 _. simpl. f_equal. lia. }
  cbn [Media.visit_tracks]. rewrite filter_cons. cbn [snd].
  destruct (Media.has_width t && Media.has_height t) eqn:Hb.
  - rewrite decide_True by done. simpl. by rewrite IH.
  - rewrite decide_False by done. apply IH.
Qed.

(** The indices a filter keeps of an indexed list: those of the elements
    that satisfy the test, in increasing order. *)
Lemma filter_imap_indices {A : Type} (P : nat * A → Prop)
    `{∀ p, Decision (P p)} (i : nat) (l : list A) :
  (∀ k, k ∈ (filter P (imap (λ j x, ((i + j)%nat, x)) l)).*1 ↔
        ∃ j x, k = (i + j)%nat ∧ l !! j = Some x ∧ P (k, x))
  ∧ StronglySorted lt (filter P (imap (λ j x, ((i + j)%nat, x)) l)).*1.
Proof.
  revert i. induction l as [|x l IH]; intros i.
  { simpl. split; [|constructor]. intros k. split; [by intros ?%elem_of_nil|].
    by intros (j & y & _ & ? & _). }
  destruct (IH (S i)) as [Hin Hsorted].
  assert (imap (λ j y, ((i + j)%nat, y)) (x :: l)
          = (i, x) :: imap (λ j y, ((S i + j)%nat, y)) l) as ->.
  { rewrite imap_cons. f_equal; [f_equal; lia|].
    apply imap_ext. intros j y _. simpl. f_equal. lia. }
  assert (∀ k, k ∈ (filter P (imap (λ j y, ((S i + j)%nat, y)) l)).*1 →
               (i < k)%nat) as Hlt.
  { intros k (j & y & -> & _)%Hin. lia. }
  assert (∀ k, (∃ j y, k = (i + j)%nat ∧ (x :: l) !! j = Some y ∧ P (k, y)) ↔
               (k = i ∧ P (i, x))
               ∨ ∃ j y, k = (S i + j)%nat ∧ l !! j = Some y ∧ P (k, y))
    as Hsplit.
  { intros k. split.
    - intros ([|j] & y & -> & Hj & HP); simpl in Hj.
      + left. injection Hj as <-. rewrite Nat.add_0_r in HP.
        split; [lia|done].
      + right. exists j, y. split_and!; [lia|done..].
    - intros [[-> HP]|(j & y & -> & Hj & HP)].
      + exists 0%nat, x. rewrite Nat.add_0_r. by split_and!.
      + exists (S j), y. split_and!; [lia|done|].
        by replace (i + S j)%nat with (S i + j)%nat by lia. }
  rewrite filter_cons. destruct (decide (P (i, x))) as [HP|HP].
  - rewrite fmap_cons. cbn [fst]. split.
    + intros k. rewrite elem_of_cons, Hin, Hsplit. split.
      * intros [->|?]; [by left|by right].
      * intros [[-> _]|?]; [by left|by right].
    + constructor; [done|]. by apply Forall_forall.
  - split; [|done].
    intros k. rewrite Hin, Hsplit. split; [by right|].
    by intros [[_ ?]|?].
Qed.

Lemma filter_imap_length {A : Type} (Q : A → Prop) `{∀ x, Decision (Q x)}
    (i : nat) (l : list A) :
  length (filter (λ p : nat * A, Q p.2) (imap (λ j x, ((i + j)%nat, x)) l)).*1
  = length (filter Q l).
Proof.
  revert i. induction l as [|x l IH]; intros i; [done|].
  assert (imap (λ j y, ((i + j)%nat, y)) (x :: l)
          = (i, x) :: imap (λ j y, ((S i + j)%nat, y)) l) as ->.
  { rewrite imap_cons. f_equal; [f_equal; lia|].
    apply imap_ext. intros j y _. simpl. f_equal. lia. }
  rewrite !filter_cons. cbn [snd].
  destruct (decide (Q x)); [rewrite fmap_cons; cbn [length]|]; by rewrite IH.
Qed.

Lemma video_sender_indices_spec (senders : list Media.sender) :
  (∀ i, i ∈ Media.video_sender_indices senders ↔
        ∃ s, senders !! i = Some s ∧ Media.track_kind s = Some "video")
  ∧ StronglySorted lt (Media.video_sender_indices senders).
Proof.
  destruct (filter_imap_indices
    (λ p : nat * Media.sender, Media.track_kind p.2 = Some "video") 0 senders)
    as [Hin Hsorted].
  split; [|exact Hsorted].
  intros i. unfold Media.video_sender_indices.
  etrans; [apply Hin|]. split.
  - intros (j & s & -> & Hj & Hk). by exists s.
  - intros (s & Hi & Hk). by exists i, s.
Qed.

Lemma capable_track_indices_spec (tracks : list Media.video_track) :
  (∀ i, i ∈ Media.capable_track_indices tracks ↔
        ∃ t, tracks !! i = Some t
             ∧ Media.has_width t && Media.has_height t = true)
  ∧ StronglySorted lt (Media.capable_track_indices tracks).
Proof.
  destruct (filter_imap_indices
    (λ p : nat * Media.video_track,
       Media.has_width p.2 && Media.has_height p.2 = true) 0 tracks)
    as [Hin Hsorted].
  split; [|exact Hsorted].
  intros i. unfold Media.capable_track_indices.
  etrans; [apply Hin|]. split.
  - intros (j & t & -> & Hj & Hk). by exists t.
  - intros (t & Hi & Hk). by exists i, t.
Qed.

(** X23: when no sender of a video track reports an empty array of
    encodings, [optimizeMediaNegotiation] calls [setParameters] on exactly
    the senders of a video track.  The encodings it hands over start with a
    layer of at most 1000000 bit/s: when the sender had no encodings or one,
    two layers of 500000 and 150000 are added, three in all; when it had two
    or more, only the bitrate of the first changes.  Handing the result to
    the function again changes nothing. *)
Theorem video_sender_layers (senders : list Media.sender)
    (localStream : option (list Media.video_track)) :
  Forall (λ s, Media.track_kind s = Some "video" →
               Media.encodings s ≠ Some []) senders →
  (∀ i encs,
     Media.setParameters i encs
       ∈ (Media.optimizeMediaNegotiation senders localStream).2 ↔
     ∃ s, senders !! i = Some s
          ∧ Media.track_kind s = Some "video"
          ∧ ((Media.encodings s = None
              ∧ encs = [Media.mkEncoding (Some 1000000) None None;
                        Media.mkEncoding (Some 500000) None None;
                        Media.mkEncoding (Some 150000) None None])
             ∨ (∃ e, Media.encodings s = Some [e]
                     ∧ encs = [Media.set_maxBitrate e 1000000;
                               Media.mkEncoding (Some 500000) None None;
                               Media.mkEncoding (Some 150000) None None])
             ∨ (∃ e e' rest,
                  Media.encodings s = Some (e :: e' :: rest)
                  ∧ encs = Media.set_maxBitrate e 1000000 :: e' :: rest)))
  ∧ (∀ i encs,
       Media.setParameters i encs
         ∈ (Media.optimizeMediaNegotiation senders localStream).2 →
       (2 ≤ length encs)%nat
       ∧ Media.maxBitrate <$> head encs = Some (Some 1000000)
       ∧ Media.optimizeMediaNegotiation
           [Media.mkSender (Some "video") (Some encs)] None
         = (Normal (), [Media.setParameters 0 encs])).
Proof.
  intros Hall.
  destruct (visit_senders_calls 0 senders Hall) as (Hr & Hcalls & _).
  assert (∀ i encs,
            Media.setParameters i encs
              ∈ (Media.optimizeMediaNegotiation senders localStream).2 ↔
            ∃ s, senders !! i = Some s
                 ∧ Media.sender_encodings s = Normal (Some encs)) as Hin.
  { intros i encs. unfold Media.optimizeMediaNegotiation.
    destruct (Media.visit_senders 0 senders) as [r calls].
    simpl in Hr, Hcalls. subst r.
    assert (Media.setParameters i encs ∈ calls ↔
            ∃ s, senders !! i = Some s
                 ∧ Media.sender_encodings s = Normal (Some encs)) as Hsenders.
    { rewrite Hcalls. split.
      - intros (j & s & encs' & [= -> ->] & Hj & Hs). by exists s.
      - intros (s & Hi & Hs). by exists i, s, encs. }
    destruct localStream as [tracks|]; simpl; [|done].
    rewrite elem_of_app, Hsenders, visit_tracks_calls. split; [|by left].
    intros [?|(j & ? & _)%list_elem_of_fmap]; done. }
  split.
  - intros i encs. rewrite Hin. split.
    + intros (s & Hi & Hs%sender_encodings_Some). exists s. by destruct Hs.
    + intros (s & Hi & Hk & Hcases). exists s. split; [done|].
      by apply sender_encodings_Some.
  - intros i encs (s & _ & Hs)%Hin.
    destruct (sender_encodings_fixpoint s encs Hs) as (Hlen & Hhead & Hfix).
    split_and!; [done..|].
    unfold Media.optimizeMediaNegotiation. cbn [Media.visit_senders].
    by rewrite Hfix.
Qed.

Lemma video_sender_layers_witness :
  Media.setParameters 1
    [Media.mkEncoding (Some 1000000) None None;
     Media.mkEncoding (Some 500000) None None;
     Media.mkEncoding (Some 150000) None None]
  ∈ (Media.optimizeMediaNegotiation
       [Media.mkSender (Some "audio") None; Media.mkSender (Some "video") None]
       (Some [Media.mkVideoTrack true true])).2.
Proof.
  assert (Forall (λ s, Media.track_kind s = Some "video" →
                       Media.encodings s ≠ Some [])
            [Media.mkSender (Some "audio") None;
             Media.mkSender (Some "video") None]) as Hall.
  { repeat constructor; discriminate. }
  apply (proj1 (video_sender_layers
    [Media.mkSender (Some "audio") None; Media.mkSender (Some "video") None]
    (Some [Media.mkVideoTrack true true]) Hall)).
  exists (Media.mkSender (Some "video") None).
  split_and!; [reflexivity|reflexivity|]. left. by split.
Defined.

Lemma visit_senders_throws i pre s suf :
  Media.track_kind s = Some "video" → Media.encodings s = Some [] →
  (Media.visit_senders i (pre ++ s :: suf)).1 = Throw "TypeError"
  ∧ (∀ c, c ∈ (Media.visit_senders i (pre ++ s :: suf)).2 →
       ∃ j encs, c = Media.setParameters j encs
                 ∧ (i ≤ j < i + length pre)%nat).
Proof.
  intros Hk He. revert i. induction pre as [|s0 pre IH]; intros i; simpl.
  - unfold Media.sender_encodings. rewrite Hk, He. simpl.
    split; [done|]. by intros c ?%elem_of_nil.
  - destruct (Media.sender_encodings s0) as [[encs|]|e] eqn:Hs0.
    + destruct (IH (S i)) as [Hthrow Hcalls].
      destruct (Media.visit_senders (S i) (pre ++ s :: suf)) as [r calls].
      simpl in *. split; [done|].
      intros c [->|Hc]%elem_of_cons.
      * exists i, encs. split; [done|lia].
      * destruct (Hcalls c Hc) as (j & encs' & -> & Hj).
        exists j, encs'. split; [done|lia].
    + destruct (IH (S i)) as [Hthrow Hcalls]. split; [done|].
      intros c Hc. destruct (Hcalls c Hc) as (j & encs' & -> & Hj).
      exists j, encs'. split; [done|lia].
    + simpl. split.
      * unfold Media.sender_encodings in Hs0. f_equal.
        repeat case_match; by simplify_eq.
      * by intros c ?%elem_of_nil.
Qed.

(** X24: when a sender of a video track reports an empty array of
    encodings, [optimizeMediaNegotiation] throws a TypeError to its caller;
    the only calls made are [setParameters] on senders before that one: the
    later senders are skipped and no constraint is applied to any
    track. *)
Theorem optimizeMediaNegotiation_empty_encodings
    (pre suf : list Media.sender) (s : Media.sender)
    (localStream : option (list Media.video_track)) :
  Media.track_kind s = Some "video" → Media.encodings s = Some [] →
  (Media.optimizeMediaNegotiation (pre ++ s :: suf) localStream).1
  = Throw "TypeError"
  ∧ (∀ c, c ∈ (Media.optimizeMediaNegotiation (pre ++ s :: suf)
                 localStream).2 →
       ∃ j encs, c = Media.setParameters j encs ∧ (j < length pre)%nat).
Proof.
  intros Hk He. unfold Media.optimizeMediaNegotiation.
  destruct (visit_senders_throws 0 pre s suf Hk He) as [Hthrow Hcalls].
  destruct (Media.visit_senders 0 (pre ++ s :: suf)) as [r calls].
  simpl in *. subst r. simpl. split; [done|].
  intros c Hc. destruct (Hcalls c Hc) as (j & encs & -> & Hj).
  exists j, encs. split; [done|lia].
Qed.

Lemma optimizeMediaNegotiation_empty_encodings_witness :
  (Media.optimizeMediaNegotiation
    [Media.mkSender (Some "audio") None;
     Media.mkSender (Some "video") None;
     Media.mkSender (Some "video") (Some []);
     Media.mkSender (Some "video") None]
    (Some [Media.mkVideoTrack true true])).1
  = Throw "TypeError".
Proof.
  exact (proj1 (optimizeMediaNegotiation_empty_encodings
    [Media.mkSender (Some "audio") None; Media.mkSender (Some "video") None]
    [Media.mkSender (Some "video") None]
    (Media.mkSender (Some "video") (Some []))
    (Some [Media.mkVideoTrack true true]) eq_refl eq_refl)).
Defined.

Lemma visit_senders_normal i senders :
  Forall (λ s, Media.track_kind s = Some "video" →
               Media.encodings s ≠ Some []) senders →
  (Media.visit_senders i senders).1 = Normal ()
  ∧ length (Media.visit_senders i senders).2
    = length (filter (λ s, Media.track_kind s = Some "video") senders).
Proof.
  intros Hall. revert i.
  induction Hall as [|s senders Hs _ IH]; intros i; simpl; [done|].
  rewrite filter_cons. unfold Media.sender_encodings.
  destruct (Media.track_kind s) as [k|] eqn:Hk.
  - destruct (decide (k = "video")) as [->|Hne].
    + rewrite bool_decide_eq_true_2, decide_True by done.
      specialize (Hs eq_refl).
      destruct (Media.encodings s) as [[|e rest]|]; [done|..];
        case_bool_decide; destruct (IH (S i)) as [Hr Hl];
        destruct (Media.visit_senders (S i) senders); simpl in *;
        by rewrite Hl.
    + rewrite bool_decide_eq_false_2 by done.
      rewrite decide_False by congruence. apply IH.
  - rewrite decide_False by done. apply IH.
Qed.

(** X25: when no sender of a video track reports an empty array of
    encodings, [optimizeMediaNegotiation] returns normally.  Its calls are
    one [setParameters] for each sender with a video track, in the order of
    the senders, and none for another sender; then one [applyConstraints]
    for each video track of the stream whose capabilities have a width and
    a height, in the order of the tracks, and none for another track;
    without a stream no constraint is applied. *)
Theorem optimizeMediaNegotiation_calls (senders : list Media.sender)
    (tracks : list Media.video_track) :
  Forall (λ s, Media.track_kind s = Some "video" →
               Media.encodings s ≠ Some []) senders →
  (Media.optimizeMediaNegotiation senders (Some tracks)).1 = Normal ()
  ∧ (Media.optimizeMediaNegotiation senders None).1 = Normal ()
  ∧ Forall2 (λ c i, ∃ encs, c = Media.setParameters i encs)
      (Media.optimizeMediaNegotiation senders None).2
      (Media.video_sender_indices senders)
  ∧ (Media.optimizeMediaNegotiation senders (Some tracks)).2
    = (Media.optimizeMediaNegotiation senders None).2
      ++ (Media.applyConstraints <$> Media.capable_track_indices tracks)
  ∧ (∀ i, i ∈ Media.video_sender_indices senders ↔
          ∃ s, senders !! i = Some s ∧ Media.track_kind s = Some "video")
  ∧ StronglySorted lt (Media.video_sender_indices senders)
  ∧ (∀ j, j ∈ Media.capable_track_indices tracks ↔
          ∃ t, tracks !! j = Some t
               ∧ Media.has_width t && Media.has_height t = true)
  ∧ StronglySorted lt (Media.capable_track_indices tracks)
  ∧ length (Media.optimizeMediaNegotiation senders None).2
    = length (filter (λ s, Media.track_kind s = Some "video") senders)
  ∧ length (Media.capable_track_indices tracks)
    = length (filter (λ t, Media.has_width t && Media.has_height t = true)
                tracks).
Proof.
  intros Hall.
  destruct (visit_senders_normal 0 senders Hall) as [Hr Hl].
  destruct (visit_senders_calls 0 senders Hall) as (_ & _ & Hidx).
  destruct (video_sender_indices_spec senders) as [Hvin Hvsorted].
  destruct (capable_track_indices_spec tracks) as [Htin Htsorted].
  pose proof (filter_imap_length
    (λ t, Media.has_width t && Media.has_height t = true) 0 tracks) as Hlen.
  pose proof (visit_tracks_calls 0 tracks) as Htracks.
  unfold Media.optimizeMediaNegotiation.
  destruct (Media.visit_senders 0 senders) as [r calls].
  cbn [fst snd] in Hr, Hl, Hidx. subst r. cbn [fst snd].
  split_and!; try done.
  by rewrite Htracks.
Qed.

Lemma optimizeMediaNegotiation_calls_witness :
  (Media.optimizeMediaNegotiation
     [Media.mkSender (Some "audio") None; Media.mkSender (Some "video") None]
     (Some [Media.mkVideoTrack true true; Media.mkVideoTrack true false])).2
  = (Media.optimizeMediaNegotiation
       [Media.mkSender (Some "audio") None; Media.mkSender (Some "video") None]
       None).2
    ++ [Media.applyConstraints 0].
Proof.
  assert (Forall (λ s, Media.track_kind s = Some "video" →
                       Media.encodings s ≠ Some [])
            [Media.mkSender (Some "audio") None;
             Media.mkSender (Some "video") None]) as Hall.
  { repeat constructor; discriminate. }
  exact (proj1 (proj2 (proj2 (proj2 (optimizeMediaNegotiation_calls
    [Media.mkSender (Some "audio") None; Media.mkSender (Some "video") None]
    [Media.mkVideoTrack true true; Media.mkVideoTrack true false] Hall))))).
Defined.

(** ** Reports with two inbound video entries *)


